(** * A shallow embedding of the file gateway (server.js and its variants)

    The gateway is an Express application: a volatile folder registry, five
    file endpoints that forward to the Backblaze B2 SDK, and, in one variant,
    a reminder poller.  Each route handler becomes a function of the request
    fields and of the state it touches; the SDK, the file system and the
    identity provider are interfaces whose behaviour is left arbitrary. *)

From Stdlib Require Import String Ascii.
From Stdlib Require Import List ZArith NArith Bool Lia Sorting.Sorted FinFun.
From Stdlib Require Import Init.Byte.
Import ListNotations.

Open Scope Z_scope.

(** ** JavaScript strings *)

Module JS.

(** A JavaScript string is a sequence of UTF-16 code units. *)
Definition str := list N.

(** An ASCII literal of the source, as code units. *)
Definition lit (s : string) : str := map N_of_ascii (list_ascii_of_string s).

(** WhiteSpace and LineTerminator code points of ECMAScript, the ones
    [String.prototype.trim] strips. *)
Definition isWhiteSpace (c : N) : bool :=
  ((9 <=? c) && (c <=? 13) || (c =? 32) || (c =? 160) || (c =? 5760)
   || (8192 <=? c) && (c <=? 8202) || (c =? 8232) || (c =? 8233)
   || (c =? 8239) || (c =? 8287) || (c =? 12288) || (c =? 65279))%N.

Fixpoint trimStart (s : str) : str :=
  match s with
  | [] => []
  | c :: r => if isWhiteSpace c then trimStart r else s
  end.

Fixpoint trimEnd (s : str) : str :=
  match s with
  | [] => []
  | c :: r =>
      match trimEnd r with
      | [] => if isWhiteSpace c then [] else [c]
      | r' => c :: r'
      end
  end.

(** [s.trim()] *)
Definition trim (s : str) : str := trimEnd (trimStart s).

(** [s.startsWith(p)] *)
Fixpoint startsWith (s p : str) {struct p} : bool :=
  match p, s with
  | [], _ => true
  | _ :: _, [] => false
  | a :: p', b :: s' => (a =? b)%N && startsWith s' p'
  end.

(** [a === b] on two strings *)
Fixpoint eqb (a b : str) : bool :=
  match a, b with
  | [], [] => true
  | x :: a', y :: b' => (x =? y)%N && eqb a' b'
  | _, _ => false
  end.

(** A request field (of [req.query] or [req.body]): [undefined] when the
    client did not send it, a string otherwise. *)
Definition field := option str.

(** Truthiness of a field: [undefined] and the empty string are falsy. *)
Definition truthy (v : field) : bool :=
  match v with
  | Some (_ :: _) => true
  | _ => false
  end.

(** [`${v}`] in a template literal *)
Definition tmpl (v : field) : str :=
  match v with
  | Some s => s
  | None => lit "undefined"
  end.

(** [v ? v.trim() : ""] *)
Definition trimmed (v : field) : str :=
  match v with
  | Some s => if truthy v then trim s else []
  | None => []
  end.

(** Whether a string begins or ends with a white space code unit. *)
Definition padded (s : str) : bool :=
  match s with
  | [] => false
  | c :: _ => isWhiteSpace c || isWhiteSpace (last s c)
  end.

End JS.

Import JS.

(** ** Responses *)

Record Folder := mkFolder { id : Z; name : str; uid : str }.

(** An entry of the store's file listing, and the store's answer to a
    delete; the gateway passes both through untouched. *)
Record FileInfo := mkFileInfo { fileId : str; fileName : str }.

Inductive Body :=
| Failure (error : str)
| FolderCreated (data : Folder)
| FolderList (folders : list Folder)
| Uploaded (fileId fileName : str)
| FileList (files : list FileInfo)
| Deleted (data : FileInfo)
| SignedUrl (signedUrl : str).

Record Response := mkResponse { status : Z; body : Body }.

(** [res.status(c).json({ success: false, error })] *)
Definition fail (code : Z) (error : str) : Response := mkResponse code (Failure error).

(** [res.json({ success: true, ... })] *)
Definition json (b : Body) : Response := mkResponse 200 b.

Definition success (r : Response) : bool :=
  match body r with
  | Failure _ => false
  | _ => true
  end.

(** ** The folder registry *)

Module Registry.

(** [folders] and [folderIdCounter], the two module-level variables.  The
    counter is a JavaScript number; its increments are exact below 2^53, far
    beyond the number of folders an array can hold, so it is an integer
    here. *)
Record t := mk { folders : list Folder; folderIdCounter : Z }.

(** The state of a process that has just started. *)
Definition fresh : t := mk [] 1.

(** [app.post('/folder')]: [name] and [uid] are stored as they arrive. *)
Definition post_folder (name uid : field) (r : t) : Response * t :=
  match name, uid with
  | Some name', Some uid' =>
      if negb (truthy name) || negb (truthy uid) then
        (fail 400 (lit "Falta el nombre de la carpeta o el UID"), r)
      else
        let newFolder := mkFolder (folderIdCounter r) name' uid' in
        (json (FolderCreated newFolder),
         mk (folders r ++ [newFolder]) (folderIdCounter r + 1))
  | _, _ => (fail 400 (lit "Falta el nombre de la carpeta o el UID"), r)
  end.

(** [app.get('/folders')] *)
Definition get_folders (quid : field) (r : t) : Response * t :=
  let uid' := trimmed quid in
  if negb (truthy (Some uid')) then
    (fail 400 (lit "Falta el UID en la query"), r)
  else
    let userFolders := filter (fun folder => eqb (uid folder) uid') (folders r) in
    (json (FolderList userFolders), r).

(** The requests that reach the registry, and a run of several. *)
Inductive request :=
| PostFolder (name uid : field)
| GetFolders (uid : field).

Definition handle (q : request) (r : t) : Response * t :=
  match q with
  | PostFolder n u => post_folder n u r
  | GetFolders u => get_folders u r
  end.

Definition run (qs : list request) (r : t) : t :=
  fold_left (fun r q => snd (handle q r)) qs r.

(** The folders a response lists. *)
Definition listed (p : Response) : list Folder :=
  match body p with
  | FolderList l => l
  | _ => []
  end.

(** The ids in a registry count up from 1, and the counter is one ahead. *)
Definition counted (r : t) : Prop :=
  map id (folders r) = map Z.of_nat (seq 1 (length (folders r)))
  /\ folderIdCounter r = Z.of_nat (length (folders r)) + 1.

End Registry.

(** ** The outside world: object store, file system, environment *)

(** What an SDK call gives back: the awaited value, or a thrown error with
    its [message]. *)
Inductive Result (A : Type) :=
| Ok (a : A)
| Throw (message : str).
Arguments Ok {A} a.
Arguments Throw {A} message.

Module Authorize.
Record data := mk { downloadUrl : str }.
End Authorize.

Module UploadUrl.
Record data := mk { uploadUrl : str; authorizationToken : str }.
End UploadUrl.

Module DownloadAuth.
Record data := mk { authorizationToken : str }.
End DownloadAuth.

(** The part of the Backblaze B2 client the gateway uses, over a store
    state [S] that only the client touches. *)
Class B2 (S : Type) := {
  authorize : S -> Result Authorize.data * S;
  getUploadUrl : field -> S -> Result UploadUrl.data * S;
  uploadFile : str -> str -> str -> list byte -> S -> Result FileInfo * S;
  listFileNames : field -> str -> Z -> S -> Result (list FileInfo) * S;
  deleteFileVersion : field -> field -> S -> Result FileInfo * S;
  getDownloadAuthorization : field -> field -> Z -> S -> Result DownloadAuth.data * S
}.

(** [fs.readFileSync] and [fs.unlinkSync] *)
Class FS (F : Type) := {
  readFileSync : str -> F -> Result (list byte);
  unlinkSync : str -> F -> Result unit * F
}.

(** The calls issued to the object store, in the order they are issued. *)
Inductive Call :=
| Authorize
| GetUploadUrl (bucketId : field)
| UploadFile (uploadUrl uploadAuthToken fileName : str) (data : list byte)
| ListFileNames (bucketId : field) (prefix : str) (maxFileCount : Z)
| DeleteFileVersion (fileId fileName : field)
| GetDownloadAuthorization (bucketId fileNamePrefix : field)
    (validDurationInSeconds : Z).

(** [process.env] *)
Record Env := mkEnv { B2_BUCKET_ID : field; B2_BUCKET_NAME : field; EMAIL_USER : field }.

(** [req.file], as multer leaves it. *)
Record File := mkFile { path : str; originalname : str }.

Record World (S F : Type) := mkWorld { b2 : S; fs : F; log : list Call }.
Arguments mkWorld {S F} b2 fs log.
Arguments b2 {S F} w.
Arguments fs {S F} w.
Arguments log {S F} w.

(** The calls a handler issued while it took the world from [w] to [w']. *)
Definition issued {S F : Type} (w w' : World S F) : list Call :=
  skipn (length (log w)) (log w').

(** The guards of the two owner-checked routes; [None] lets the request
    through. *)

(** [app.delete('/file')], up to the prefix check. *)
Definition delete_guard (fileId fileName uid : field) : option Response :=
  match fileName with
  | Some fileName' =>
      if negb (truthy fileId) || negb (truthy fileName) || negb (truthy uid) then
        Some (fail 400 (lit "Se requiere fileId, fileName y uid"))
      else if negb (startsWith fileName' (lit "archivos/" ++ tmpl uid ++ lit "/")) then
        Some (fail 403 (lit "No autorizado para eliminar este archivo"))
      else None
  | None => Some (fail 400 (lit "Se requiere fileId, fileName y uid"))
  end.

(** [app.get('/download')], up to the prefix check. *)
Definition download_guard (fileName quid : field) : option Response :=
  let uid := trimmed quid in
  match fileName with
  | Some fileName' =>
      if negb (truthy fileName) || negb (truthy (Some uid)) then
        Some (fail 400 (lit "Falta el par" ++ [225%N] ++ lit "metro fileName o uid"))
      else if negb (startsWith fileName' (lit "archivos/" ++ uid ++ lit "/")) then
        Some (fail 403 (lit "No autorizado para descargar este archivo"))
      else None
  | None => Some (fail 400 (lit "Falta el par" ++ [225%N] ++ lit "metro fileName o uid"))
  end.

(** The outcome of a guard: the status it answers with, or [None]. *)
Definition decision (g : option Response) : option Z := option_map status g.

Section Gateway.

Context {S F : Type} `{B2 S} `{FS F}.
Variable env : Env.

(** An asynchronous handler body: it runs in a world, may throw, and
    leaves the world as far as it got. *)
Definition M (A : Type) : Type := World S F -> Result A * World S F.

Definition ret {A} (a : A) : M A := fun w => (Ok a, w).

Definition bind {A B} (m : M A) (k : A -> M B) : M B :=
  fun w =>
    match m w with
    | (Ok a, w') => k a w'
    | (Throw e, w') => (Throw e, w')
    end.

Definition throw {A} (e : str) : M A := fun w => (Throw e, w).

(** [await b2.method(...)]: the call is logged, the store moves on. *)
Definition await {A} (c : Call) (op : S -> Result A * S) : M A :=
  fun w =>
    let (r, s') := op (b2 w) in
    (r, mkWorld s' (fs w) (log w ++ [c])).

Definition read (p : str) : M (list byte) :=
  fun w => (readFileSync p (fs w), w).

Definition unlink (p : str) : M unit :=
  fun w =>
    let (r, f') := unlinkSync p (fs w) in
    (r, mkWorld (b2 w) f' (log w)).

(** [try { ... } catch (error) { res.status(500).json(...) }] *)
Definition try_catch (m : M Response) : World S F -> Response * World S F :=
  fun w =>
    match m w with
    | (Ok r, w') => (r, w')
    | (Throw message, w') => (fail 500 message, w')
    end.

Local Notation "x <- m ;; k" := (bind m (fun x => k))
  (at level 61, m at next level, right associativity).

(** [`archivos/${uid}/[${carpeta}/]${originalFileName}`], as the upload
    handler builds it in [refPath]. *)
Definition refPath (uid carpeta originalFileName : str) : str :=
  let refPath := lit "archivos/" in
  let refPath := refPath ++ (uid ++ lit "/") in
  let refPath := if truthy (Some carpeta) then refPath ++ (carpeta ++ lit "/") else refPath in
  refPath ++ originalFileName.

(** [app.post('/upload')] *)
Definition post_upload (file : option File) (buid carpeta : field)
  : World S F -> Response * World S F :=
  try_catch (
    let uid := trimmed buid in
    if negb (truthy (Some uid)) then ret (fail 400 (lit "UID requerido"))
    else
      _ <- await Authorize authorize ;;
      let bucketId := B2_BUCKET_ID env in
      uploadUrlResponse <- await (GetUploadUrl bucketId) (getUploadUrl bucketId) ;;
      let uploadUrl := UploadUrl.uploadUrl uploadUrlResponse in
      let authorizationToken := UploadUrl.authorizationToken uploadUrlResponse in
      match file with
      | None => throw (lit "Cannot read properties of undefined (reading 'path')")
      | Some file =>
          let filePath := path file in
          fileData <- read filePath ;;
          let originalFileName := originalname file in
          let carpeta := trimmed carpeta in
          let refPath := refPath uid carpeta originalFileName in
          uploadResponse <-
            await (UploadFile uploadUrl authorizationToken refPath fileData)
                  (uploadFile uploadUrl authorizationToken refPath fileData) ;;
          _ <- unlink filePath ;;
          ret (json (Uploaded (fileId uploadResponse) refPath))
      end).

(** The prefix [app.get('/files')] lists under. *)
Definition prefix (quid : field) : str :=
  let uid := trimmed quid in
  let prefix := lit "archivos/" in
  if truthy (Some uid) then prefix ++ (uid ++ lit "/") else prefix.

(** [app.get('/files')] *)
Definition get_files (quid : field) : World S F -> Response * World S F :=
  try_catch (
    _ <- await Authorize authorize ;;
    let bucketId := B2_BUCKET_ID env in
    let prefix := prefix quid in
    listResponse <-
      await (ListFileNames bucketId prefix 100) (listFileNames bucketId prefix 100) ;;
    ret (json (FileList listResponse))).

(** [app.delete('/file')] *)
Definition delete_file (fileId fileName uid : field)
  : World S F -> Response * World S F :=
  try_catch (
    match delete_guard fileId fileName uid with
    | Some refusal => ret refusal
    | None =>
        _ <- await Authorize authorize ;;
        deleteResponse <-
          await (DeleteFileVersion fileId fileName)
                (deleteFileVersion fileId fileName) ;;
        ret (json (Deleted deleteResponse))
    end).

Definition validDurationInSeconds : Z := 3600.

(** [`${baseDownloadUrl}/file/${bucketName}/${fileName}?Authorization=${token}`] *)
Definition signedUrl (baseDownloadUrl : str) (bucketName fileName : field) (token : str)
  : str :=
  baseDownloadUrl ++ lit "/file/" ++ tmpl bucketName ++ lit "/" ++ tmpl fileName
    ++ lit "?Authorization=" ++ token.

(** [app.get('/download')]: the guard runs before the [try]. *)
Definition get_download (fileName quid : field) : World S F -> Response * World S F :=
  fun w =>
    match download_guard fileName quid with
    | Some refusal => (refusal, w)
    | None =>
        try_catch (
          authResponse <- await Authorize authorize ;;
          let bucketId := B2_BUCKET_ID env in
          downloadAuthResponse <-
            await (GetDownloadAuthorization bucketId fileName validDurationInSeconds)
                  (getDownloadAuthorization bucketId fileName validDurationInSeconds) ;;
          let token := DownloadAuth.authorizationToken downloadAuthResponse in
          let baseDownloadUrl := Authorize.downloadUrl authResponse in
          let bucketName := B2_BUCKET_NAME env in
          ret (json (SignedUrl (signedUrl baseDownloadUrl bucketName fileName token)))) w
    end.

End Gateway.

(** ** The reminder poller (the variant with [checkUpcomingEvents]) *)

Module Poller.

(** A document of the collection [eventos]. *)
Record Event := mkEvent {
  title : field; start : field; time : field; email : field; userId : field
}.

(** What [admin.auth().getUser] resolves to. *)
Record UserRecord := mkUser { user_email : field }.

Record Mail := mkMail { from : field; to : field; subject : str; text : str; html : str }.

(** What handling one event does to the outside. *)
Inductive Action :=
| GetUser (userId : field)
| SendMail (m : Mail).

Section Tick.

Variable env : Env.

(** [new Date(s).getTime()], in milliseconds; [None] is an invalid date,
    whose comparisons are all false. *)
Variable Date_parse : str -> option Z.

(** The identity provider: the record of a user, or a rejection. *)
Variable getUser : field -> Result UserRecord.

(** [new Date(`${evento.start}T${evento.time}:00`)] *)
Definition eventDateTime (evento : Event) : option Z :=
  Date_parse (tmpl (start evento) ++ lit "T" ++ tmpl (time evento) ++ lit ":00").

(** [eventDateTime >= ahora && eventDateTime <= cincoMinutosDespues] *)
Definition upcoming (ahora : Z) (evento : Event) : bool :=
  let cincoMinutosDespues := ahora + 5 * 60 * 1000 in
  match eventDateTime evento with
  | Some t => (t >=? ahora) && (t <=? cincoMinutosDespues)
  | None => false
  end.

Definition quoted (s : str) : str := [34%N] ++ s ++ [34%N].

Definition reminder (evento : Event) (email : field) : Mail :=
  let subject :=
    lit "Recordatorio: El evento " ++ quoted (tmpl (title evento))
      ++ lit " inicia en 5 minutos" in
  let text :=
    lit "El evento " ++ quoted (tmpl (title evento)) ++ lit " comenzar" ++ [225%N]
      ++ lit " el " ++ tmpl (start evento) ++ lit " a las " ++ tmpl (time evento)
      ++ lit "." in
  let html :=
    lit "<p>El evento <strong>" ++ tmpl (title evento) ++ lit "</strong> comenzar"
      ++ [225%N] ++ lit " el <strong>" ++ tmpl (start evento)
      ++ lit "</strong> a las <strong>" ++ tmpl (time evento) ++ lit "</strong>.</p>" in
  mkMail (EMAIL_USER env) email subject text html.

(** The tail of the callback, once [email] has its final value. *)
Definition send (evento : Event) (email : field) : list Action :=
  if negb (truthy email) then [] else [SendMail (reminder evento email)].

(** The callback given to [snapshot.forEach], on one document. *)
Definition notify (ahora : Z) (evento : Event) : list Action :=
  if upcoming ahora evento then
    let email := email evento in
    if negb (truthy email) && truthy (userId evento) then
      GetUser (userId evento) ::
        match getUser (userId evento) with
        | Ok userRecord => send evento (user_email userRecord)
        | Throw _ => []
        end
    else send evento email
  else [].

(** One tick at time [ahora]: the callback runs on every document of the
    snapshot; a failed fetch is logged and nothing else happens.  The
    callbacks are asynchronous, so the result keeps what each event
    caused, in the order of the documents, and not the order in which
    mails of different events leave. *)
Definition checkUpcomingEvents (ahora : Z) (snapshot : Result (list Event))
  : list (list Action) :=
  match snapshot with
  | Ok docs => map (notify ahora) docs
  | Throw _ => []
  end.

(** The mails and the lookups among some actions. *)
Definition mails (l : list Action) : list Mail :=
  flat_map (fun a => match a with SendMail m => [m] | _ => [] end) l.

Definition lookups (l : list Action) : list field :=
  flat_map (fun a => match a with GetUser u => [u] | _ => [] end) l.

(** The recipient of an event as the specification words it: the stored
    [email] when there is one, otherwise the one the identity provider
    has for [userId]. *)
Definition recipient (evento : Event) : option str :=
  match email evento with
  | Some (c :: r) => Some (c :: r)
  | _ =>
      match userId evento with
      | Some (_ :: _) =>
          match getUser (userId evento) with
          | Ok (mkUser (Some (c :: r))) => Some (c :: r)
          | _ => None
          end
      | _ => None
      end
  end.

End Tick.

End Poller.

(** ** Stand-ins for the collaborators, to run the handlers on examples *)

Module Mem.

(** A bucket that holds names and contents and never fails to authorize. *)
Definition bucket := list (FileInfo * list byte).

Definition remove (i n : str) (b : bucket) : bucket :=
  filter (fun o => negb (eqb (fileId (fst o)) i && eqb (fileName (fst o)) n)) b.

Definition holds (i n : str) (b : bucket) : bool :=
  existsb (fun o => eqb (fileId (fst o)) i && eqb (fileName (fst o)) n) b.

#[global] Instance b2 : B2 bucket := {
  authorize b := (Ok (Authorize.mk (lit "https://f000.example.com")), b);
  getUploadUrl _ b :=
    (Ok (UploadUrl.mk (lit "https://pod.example.com/b2api") (lit "upload-token")), b);
  uploadFile _ _ n d b :=
    let i := lit "id:" ++ n in
    (Ok (mkFileInfo i n), remove i n b ++ [(mkFileInfo i n, d)]);
  listFileNames _ p k b :=
    (Ok (firstn (Z.to_nat k) (filter (fun o => startsWith (fileName o) p) (map fst b))), b);
  deleteFileVersion i n b :=
    if holds (tmpl i) (tmpl n) b
    then (Ok (mkFileInfo (tmpl i) (tmpl n)), remove (tmpl i) (tmpl n) b)
    else (Throw (lit "file_not_present"), b);
  getDownloadAuthorization _ _ _ b := (Ok (DownloadAuth.mk (lit "download-token")), b)
}.

(** A directory of temporary files. *)
Definition dir := list (str * list byte).

#[global] Instance fs : FS dir := {
  readFileSync p d :=
    match find (fun e => eqb (fst e) p) d with
    | Some e => Ok (snd e)
    | None => Throw (lit "ENOENT: no such file or directory")
    end;
  unlinkSync p d :=
    if existsb (fun e => eqb (fst e) p) d
    then (Ok tt, filter (fun e => negb (eqb (fst e) p)) d)
    else (Throw (lit "ENOENT: no such file or directory"), d)
}.

Definition env : Env :=
  mkEnv (Some (lit "bucket-1")) (Some (lit "mi-bucket")) (Some (lit "avisos@example.com")).

(** A clock that reads one timestamp, and a directory of one user. *)
Definition Date_parse (s : str) : option Z :=
  if eqb s (lit "2025-03-01T10:03:00") then Some 1740823380000 else None.

Definition getUser (u : field) : Result Poller.UserRecord :=
  if eqb (tmpl u) (lit "user-7")
  then Ok (Poller.mkUser (Some (lit "ana@example.com")))
  else Throw (lit "auth/user-not-found").

Definition junta : Poller.Event :=
  Poller.mkEvent (Some (lit "Junta")) (Some (lit "2025-03-01")) (Some (lit "10:03"))
                 None (Some (lit "user-7")).

(** A world with one stored file of user [u1] and one temporary upload. *)
Definition world : World bucket dir :=
  mkWorld [(mkFileInfo (lit "id:archivos/u1/doc.pdf") (lit "archivos/u1/doc.pdf"), [])]
          [(lit "uploads/3f2a", [Byte.x65])]
          [].

End Mem.

(** ** The file routes as one service *)

Inductive FileRequest :=
| PostUpload (file : option File) (uid carpeta : field)
| GetFiles (uid : field)
| DeleteFile (fileId fileName uid : field)
| GetDownload (fileName uid : field).

Section Routes.

Context {S F : Type} `{B2 S} `{FS F}.
Variable env : Env.

(** The handler Express picks for a request. *)
Definition route (q : FileRequest) : World S F -> Response * World S F :=
  match q with
  | PostUpload file uid carpeta => post_upload env file uid carpeta
  | GetFiles uid => get_files env uid
  | DeleteFile fileId fileName uid => delete_file fileId fileName uid
  | GetDownload fileName uid => get_download env fileName uid
  end.

End Routes.

(** ** The notification endpoint (the variants with nodemailer) *)

Module Notification.

(** The object given to [transporter.sendMail]. *)
Record Message := mkMessage {
  from : field; to : field; subject : field; text : field; html : field
}.

(** What the transport resolves to; the gateway passes it on untouched. *)
Record Info := mkInfo { messageId : str }.

Class Transport (T : Type) := {
  sendMail : Message -> T -> Result Info * T
}.

Inductive Body :=
| Failure (error : str)
| Sent (message : str) (info : Info).

Record Response := mkResponse { status : Z; body : Body }.

(** The transport and the messages handed to it so far. *)
Record Mailer (T : Type) := mkMailer { transport : T; outbox : list Message }.
Arguments mkMailer {T} transport outbox.
Arguments transport {T} m.
Arguments outbox {T} m.

Section Handler.

Context {T : Type} `{Transport T}.
Variable env : Env.

(** [app.post('/send-notification')] *)
Definition send_notification (to subject text html : field) (w : Mailer T)
  : Response * Mailer T :=
  if negb (truthy to) || negb (truthy subject)
     || (negb (truthy text) && negb (truthy html)) then
    (mkResponse 400 (Failure (lit "Faltan datos para enviar el correo")), w)
  else
    let m := mkMessage (EMAIL_USER env) to subject text html in
    let (r, t') := sendMail m (transport w) in
    let w' := mkMailer t' (outbox w ++ [m]) in
    match r with
    | Ok info => (mkResponse 200 (Sent (lit "Correo enviado") info), w')
    | Throw message => (mkResponse 500 (Failure message), w')
    end.

End Handler.

End Notification.

(** ** Further stand-ins *)

Module ReadOnly.

(** A directory whose files can be read and never removed. *)
Record dir := mk { files : Mem.dir }.

#[global] Instance fs : FS dir := {
  readFileSync p d := readFileSync p (files d);
  unlinkSync p d := (Throw (lit "EACCES: permission denied"), d)
}.

Definition world : World Mem.bucket dir :=
  mkWorld [] (mk [(lit "uploads/3f2a", [Byte.x65])]) [].

End ReadOnly.

Module Postbox.

(** A transport that keeps what it delivered and bounces one address. *)
Definition box := list Notification.Message.

#[global] Instance transport : Notification.Transport box := {
  Notification.sendMail m b :=
    if eqb (tmpl (Notification.to m)) (lit "nadie@example.com")
    then (Throw (lit "550 mailbox unavailable"), b)
    else (Ok (Notification.mkInfo (lit "<1@example.com>")), b ++ [m])
}.

Definition empty : Notification.Mailer box := Notification.mkMailer [] [].

End Postbox.

(** * Properties *)

(** ** Strings *)

Module JSFacts.

Lemma eqb_eq (a b : str) : eqb a b = true <-> a = b.
Proof.
  revert b; induction a as [|x a IH]; intros [|y b]; simpl; split;
    try congruence; try reflexivity.
  - intros E. apply andb_true_iff in E as [E1 E2].
    apply N.eqb_eq in E1. apply IH in E2. congruence.
  - intros E. injection E as -> ->. rewrite N.eqb_refl. simpl. now apply IH.
Qed.

Lemma eqb_refl (a : str) : eqb a a = true.
Proof. now apply eqb_eq. Qed.

Lemma eqb_neq (a b : str) : eqb a b = false <-> a <> b.
Proof.
  split.
  - intros E ->. rewrite eqb_refl in E. discriminate.
  - intros E. destruct (eqb a b) eqn:D; [|reflexivity].
    apply eqb_eq in D. contradiction.
Qed.

Lemma trimStart_head (s : str) c r :
  trimStart s = c :: r -> isWhiteSpace c = false.
Proof.
  induction s as [|x s IH]; simpl; [discriminate|].
  destruct (isWhiteSpace x) eqn:W; [exact IH|].
  intros E. injection E as <- _. exact W.
Qed.

Lemma trimEnd_head (s : str) c r :
  trimEnd s = c :: r -> exists r0, s = c :: r0.
Proof.
  destruct s as [|x s]; simpl; [discriminate|].
  destruct (trimEnd s); [destruct (isWhiteSpace x)|];
    intros E; try discriminate; injection E as <- _; eauto.
Qed.

Lemma trimEnd_last (s : str) d :
  trimEnd s <> [] -> isWhiteSpace (last (trimEnd s) d) = false.
Proof.
  induction s as [|x s IH]; simpl; [congruence|].
  destruct (trimEnd s) as [|y t] eqn:E.
  - destruct (isWhiteSpace x) eqn:W; [congruence|]. intros _. exact W.
  - intros _. change (last (x :: y :: t) d) with (last (y :: t) d).
    apply IH. discriminate.
Qed.

(** What [trim] returns neither begins nor ends with white space. *)
Lemma trim_not_padded (s : str) : padded (trim s) = false.
Proof.
  unfold trim, padded.
  destruct (trimEnd (trimStart s)) as [|c r] eqn:E; [reflexivity|].
  destruct (trimEnd_head _ _ _ E) as [r0 E0].
  rewrite (trimStart_head _ _ _ E0).
  pose proof (trimEnd_last (trimStart s) c) as L.
  rewrite E in L. apply L. discriminate.
Qed.

Lemma trimEnd_fixed (s : str) d :
  s <> [] -> isWhiteSpace (last s d) = false -> trimEnd s = s.
Proof.
  induction s as [|x s IH]; [congruence|].
  intros _. destruct s as [|y t].
  - simpl. now intros ->.
  - change (last (x :: y :: t) d) with (last (y :: t) d). intros W.
    change (trimEnd (x :: y :: t))
      with (match trimEnd (y :: t) with
            | [] => if isWhiteSpace x then [] else [x]
            | r' => x :: r'
            end).
    rewrite IH; [reflexivity|discriminate|exact W].
Qed.

(** [trim] leaves a string alone when it has no white space at its ends. *)
Lemma trim_fixed (s : str) : padded s = false -> trim s = s.
Proof.
  destruct s as [|c r]; [reflexivity|].
  unfold padded, trim. intros P. apply orb_false_iff in P as [P1 P2].
  change (trimStart (c :: r)) with (if isWhiteSpace c then trimStart r else c :: r).
  rewrite P1. apply (trimEnd_fixed _ c); [discriminate|exact P2].
Qed.

Lemma padded_trim_neq (u q : str) : padded u = true -> u <> trim q.
Proof. intros P ->. rewrite trim_not_padded in P. discriminate. Qed.

Lemma truthy_Some (s : str) : truthy (Some s) = true <-> s <> [].
Proof. destruct s; simpl; split; congruence. Qed.

Lemma trimmed_Some (s : str) : trimmed (Some s) = trim s.
Proof. destruct s; reflexivity. Qed.

Lemma startsWith_app (p s : str) : startsWith (p ++ s) p = true.
Proof. induction p as [|a p IH]; simpl; [reflexivity|]. now rewrite N.eqb_refl. Qed.

Lemma startsWith_inv (s p : str) :
  startsWith s p = true -> exists t, s = p ++ t.
Proof.
  revert s; induction p as [|a p IH]; intros s; simpl.
  - eauto.
  - destruct s as [|b s]; [discriminate|].
    intros E. apply andb_true_iff in E as [E1 E2].
    apply N.eqb_eq in E1. destruct (IH _ E2) as [t ->].
    exists t. now subst.
Qed.

End JSFacts.

(** ** The folder registry *)

Module RegistryFacts.

Import Registry JSFacts.

Lemma post_folder_refused (n u : field) (r : t) :
  truthy n && truthy u = false ->
  post_folder n u r = (fail 400 (lit "Falta el nombre de la carpeta o el UID"), r).
Proof.
  unfold post_folder. intros E.
  destruct n as [n|], u as [u|]; try reflexivity.
  destruct (truthy (Some n)), (truthy (Some u)); try reflexivity; discriminate.
Qed.

Lemma post_folder_created (n u : str) (r : t) :
  n <> [] -> u <> [] ->
  post_folder (Some n) (Some u) r =
    (json (FolderCreated (mkFolder (folderIdCounter r) n u)),
     mk (folders r ++ [mkFolder (folderIdCounter r) n u]) (folderIdCounter r + 1)).
Proof.
  intros Hn Hu. unfold post_folder.
  apply truthy_Some in Hn, Hu. now rewrite Hn, Hu.
Qed.

Lemma get_folders_state (q : field) (r : t) : snd (get_folders q r) = r.
Proof. unfold get_folders. now destruct (negb _). Qed.

Lemma counted_fresh : counted fresh.
Proof. split; reflexivity. Qed.

Lemma counted_handle (q : request) (r : t) : counted r -> counted (snd (handle q r)).
Proof.
  intros [Hi Hc]. destruct q as [n u|u]; simpl.
  - destruct (truthy n && truthy u) eqn:E.
    + apply andb_true_iff in E as [En Eu].
      destruct n as [n|], u as [u|]; try discriminate.
      rewrite post_folder_created by (now apply truthy_Some).
      unfold counted; cbn [folders folderIdCounter snd].
      rewrite length_app. cbn [length]. rewrite Nat.add_1_r.
      rewrite map_app, seq_S, map_app, <- Hi. cbn [map id]. split; [|lia].
      f_equal. f_equal. rewrite Hc. lia.
    + rewrite post_folder_refused by exact E. now split.
  - rewrite get_folders_state. now split.
Qed.

Lemma counted_run (qs : list request) (r : t) : counted r -> counted (run qs r).
Proof.
  revert r; induction qs as [|q qs IH]; intros r Hr; [exact Hr|].
  apply IH, counted_handle, Hr.
Qed.

Lemma counted_nth (r : t) (i : nat) (f : Folder) :
  counted r -> nth_error (folders r) i = Some f -> id f = Z.of_nat i + 1.
Proof.
  intros [Hi _] E.
  assert (L : (i < length (folders r))%nat) by (apply nth_error_Some; congruence).
  apply (map_nth_error id) in E. rewrite Hi, nth_error_map in E.
  destruct (nth_error (seq 1 (length (folders r))) i) as [k|] eqn:D; [|discriminate].
  apply (nth_error_nth _ _ 0%nat) in D. rewrite seq_nth in D by exact L.
  injection E as <-. lia.
Qed.

Lemma seq_increasing (a n : nat) : StronglySorted Z.lt (map Z.of_nat (seq a n)).
Proof.
  revert a; induction n as [|n IH]; intros a; simpl; constructor; [apply IH|].
  apply Forall_forall. intros z Hz.
  apply in_map_iff in Hz as (k & <- & Hk). apply in_seq in Hk. lia.
Qed.

Lemma seq_distinct (a n : nat) : NoDup (map Z.of_nat (seq a n)).
Proof. apply Injective_map_NoDup; [exact Nat2Z.inj|apply seq_NoDup]. Qed.

Lemma get_folders_refused (q : field) (r : t) :
  trimmed q = [] -> get_folders q r = (fail 400 (lit "Falta el UID en la query"), r).
Proof. unfold get_folders. now intros ->. Qed.

Lemma get_folders_listed (q : field) (r : t) :
  trimmed q <> [] ->
  get_folders q r =
    (json (FolderList (filter (fun folder => eqb (uid folder) (trimmed q)) (folders r))), r).
Proof.
  unfold get_folders. intros E. apply truthy_Some in E. now rewrite E.
Qed.

Lemma listed_uid (q : field) (r : t) (f : Folder) :
  In f (listed (fst (get_folders q r))) -> uid f = trimmed q /\ In f (folders r).
Proof.
  destruct (trimmed q) as [|c u] eqn:E.
  - rewrite get_folders_refused by exact E. intros [].
  - rewrite get_folders_listed by congruence. simpl. rewrite E.
    intros Hf. apply filter_In in Hf as [Hin Hu]. now apply eqb_eq in Hu.
Qed.

End RegistryFacts.

(** ** Claims about the folder registry *)

Import Registry.

(** C4: POST /folder answers 400 and leaves the registry alone when [name]
    or [uid] is absent or empty; otherwise it appends
    [{id: folderIdCounter++, name, uid}] and returns it with success.  In
    every registry reached from a fresh process the folder at position [i]
    (the [i+1]-th created) has id [i+1], so the first has id 1 and the
    second id 2, and the ids are strictly increasing and pairwise
    distinct. *)
Theorem post_folder_registry :
  (forall (n u : field) (r : Registry.t),
      n = None \/ n = Some [] \/ u = None \/ u = Some [] ->
      status (fst (post_folder n u r)) = 400
      /\ success (fst (post_folder n u r)) = false
      /\ snd (post_folder n u r) = r)
  /\ (forall (n u : str) (r : Registry.t),
        n <> [] -> u <> [] ->
        let newFolder := mkFolder (folderIdCounter r) n u in
        post_folder (Some n) (Some u) r =
          (json (FolderCreated newFolder),
           Registry.mk (folders r ++ [newFolder]) (folderIdCounter r + 1)))
  /\ (forall (qs : list request),
        let r := run qs fresh in
        (forall i f, nth_error (folders r) i = Some f -> id f = Z.of_nat i + 1)
        /\ StronglySorted Z.lt (map id (folders r))
        /\ NoDup (map id (folders r))).
Proof.
  split; [|split].
  - intros n u r E.
    rewrite RegistryFacts.post_folder_refused; [now repeat split|].
    destruct E as [ -> | [ -> | [ -> | -> ]]]; simpl; try reflexivity; apply andb_false_r.
  - intros n u r Hn Hu. now apply RegistryFacts.post_folder_created.
  - intros qs r.
    assert (C : counted r) by apply RegistryFacts.counted_run, RegistryFacts.counted_fresh.
    split; [|split].
    + intros i f. now apply RegistryFacts.counted_nth.
    + destruct C as [-> _]. apply RegistryFacts.seq_increasing.
    + destruct C as [-> _]. apply RegistryFacts.seq_distinct.
Qed.

(** The scenario of the specification: Docs gets id 1, Pics gets id 2. *)
Lemma post_folder_registry_witness :
  post_folder (Some (lit "Pics")) (Some (lit "u1"))
    (snd (post_folder (Some (lit "Docs")) (Some (lit "u1")) fresh)) =
    (json (FolderCreated (mkFolder 2 (lit "Pics") (lit "u1"))),
     Registry.mk [mkFolder 1 (lit "Docs") (lit "u1"); mkFolder 2 (lit "Pics") (lit "u1")] 3).
Proof.
  apply (proj1 (proj2 post_folder_registry) (lit "Pics") (lit "u1")); discriminate.
Defined.

(** C5, as the claim words it, fails: a query uid with white space around
    it lists the folders of the trimmed uid, whose [uid] field differs from
    the query, and a query uid of white space only is answered 400 although
    it is neither absent nor empty. *)
Lemma get_folders_raw_uid_counterexample :
  let r := Registry.mk [mkFolder 1 (lit "Docs") (lit "u1")] 2 in
  ~ (forall f, In f (listed (fst (get_folders (Some (lit " u1")) r))) -> uid f = lit " u1")
  /\ ~ (Some (lit " ") <> None -> Some (lit " ") <> Some [] ->
        status (fst (get_folders (Some (lit " ")) r)) <> 400).
Proof.
  split.
  - intros A. specialize (A (mkFolder 1 (lit "Docs") (lit "u1")) (or_introl eq_refl)).
    discriminate A.
  - intros A. apply A; [discriminate|discriminate|reflexivity].
Qed.

(** C5 (amended): GET /folders answers 400 when the query uid, once
    trimmed, is empty (absent, empty or white space only); otherwise it
    answers with the folders of the registry whose [uid] field equals the
    trimmed query uid, in insertion order, and with no other folder; the
    registry is unchanged either way. *)
Theorem get_folders_by_trimmed_uid (q : field) (r : Registry.t) :
  snd (get_folders q r) = r
  /\ (q = None \/ q = Some [] -> status (fst (get_folders q r)) = 400)
  /\ (trimmed q = [] -> status (fst (get_folders q r)) = 400)
  /\ (trimmed q <> [] ->
      fst (get_folders q r) =
        json (FolderList (filter (fun f => eqb (uid f) (trimmed q)) (folders r)))
      /\ (forall f, In f (listed (fst (get_folders q r))) <->
                    In f (folders r) /\ uid f = trimmed q)).
Proof.
  split; [apply RegistryFacts.get_folders_state|].
  split; [|split].
  - intros [->| ->]; reflexivity.
  - intros E. now rewrite RegistryFacts.get_folders_refused.
  - intros E. rewrite RegistryFacts.get_folders_listed by exact E.
    split; [reflexivity|]. intros f. simpl. unfold listed; simpl.
    rewrite filter_In, JSFacts.eqb_eq. reflexivity.
Qed.

Lemma get_folders_by_trimmed_uid_witness :
  fst (get_folders (Some (lit " u1 "))
         (Registry.mk [mkFolder 1 (lit "Docs") (lit "u1"); mkFolder 2 (lit "Fotos") (lit "u2");
                       mkFolder 3 (lit "Pics") (lit "u1")] 4)) =
    json (FolderList [mkFolder 1 (lit "Docs") (lit "u1"); mkFolder 3 (lit "Pics") (lit "u1")]).
Proof.
  refine (proj1 (proj2 (proj2 (proj2 (get_folders_by_trimmed_uid (Some (lit " u1 ")) _))) _)).
  discriminate.
Defined.

(** C10: POST /folder stores [name] and [uid] exactly as supplied, and GET
    /folders only lists folders whose [uid] equals the trimmed query uid; so
    a folder created with a uid that begins or ends with white space is
    listed for no query uid, in no registry. *)
Theorem padded_uid_never_listed (n u : str) (r : Registry.t) :
  n <> [] -> padded u = true ->
  let created := mkFolder (folderIdCounter r) n u in
  fst (post_folder (Some n) (Some u) r) = json (FolderCreated created)
  /\ In created (folders (snd (post_folder (Some n) (Some u) r)))
  /\ (forall (q : field) (r' : Registry.t) (f : Folder),
        In f (listed (fst (get_folders q r'))) -> uid f = trimmed q /\ uid f <> u).
Proof.
  intros Hn Hu created.
  assert (u <> []) by (intros ->; discriminate).
  rewrite RegistryFacts.post_folder_created by assumption.
  split; [reflexivity|]. split.
  - simpl. apply in_or_app. right. now left.
  - intros q r' f Hf. apply RegistryFacts.listed_uid in Hf as [Hq _].
    split; [exact Hq|]. rewrite Hq. intros E.
    destruct q as [s|].
    + rewrite JSFacts.trimmed_Some in E. symmetry in E.
      now apply JSFacts.padded_trim_neq in E.
    + simpl in E. subst u. discriminate.
Qed.

Lemma padded_uid_never_listed_witness :
  ~ In (mkFolder 1 (lit "Docs") (lit " u1"))
       (listed (fst (get_folders (Some (lit " u1"))
          (snd (post_folder (Some (lit "Docs")) (Some (lit " u1")) fresh))))).
Proof.
intros Hin.
destruct (padded_uid_never_listed (lit "Docs") (lit " u1") fresh) as (_ & _ & A);
  [discriminate|reflexivity|].
apply A in Hin as [_ Hin]. now apply Hin.
Defined.

(** ** The file endpoints *)

Module GatewayFacts.

Import JSFacts.

Lemma skipn_length_app {A} (l l' : list A) : skipn (length l) (l ++ l') = l'.
Proof. induction l as [|a l IH]; [reflexivity|exact IH]. Qed.

Section Facts.

Context {S F : Type} `{B2 S} `{FS F}.
Variable env : Env.

Lemma issued_none (w : World S F) : issued w w = [].
Proof. unfold issued. apply skipn_all. Qed.

Lemma issued_app (w : World S F) s f l : issued w (mkWorld s f (log w ++ l)) = l.
Proof. unfold issued. simpl. apply skipn_length_app. Qed.

Lemma issued_app2 (w : World S F) s f c d :
  issued w (mkWorld s f ((log w ++ [c]) ++ [d])) = [c; d].
Proof. rewrite <- app_assoc. apply issued_app. Qed.

Lemma issued_app3 (w : World S F) s f c d e :
  issued w (mkWorld s f (((log w ++ [c]) ++ [d]) ++ [e])) = [c; d; e].
Proof. rewrite <- !app_assoc. apply issued_app. Qed.

(** *** The guards *)

Lemma delete_guard_400 (i n u : field) :
  truthy i && truthy n && truthy u = false ->
  delete_guard i n u = Some (fail 400 (lit "Se requiere fileId, fileName y uid")).
Proof.
  unfold delete_guard. intros E. destruct n as [n|]; [|reflexivity].
  destruct (truthy i), (truthy (Some n)), (truthy u); try reflexivity; discriminate.
Qed.

Lemma delete_guard_checked (i u : field) (n : str) :
  truthy i && truthy (Some n) && truthy u = true ->
  delete_guard i (Some n) u =
    if startsWith n (lit "archivos/" ++ tmpl u ++ lit "/") then None
    else Some (fail 403 (lit "No autorizado para eliminar este archivo")).
Proof.
  unfold delete_guard. intros E.
  apply andb_true_iff in E as [E Eu]. apply andb_true_iff in E as [Ei En].
  rewrite Ei, En, Eu. cbn [negb orb]. now destruct (startsWith n _).
Qed.


Lemma delete_guard_fail (i n u : field) (x : Response) :
  delete_guard i n u = Some x -> success x = false.
Proof.
  unfold delete_guard. destruct n as [n|].
  - destruct (negb _ || _ || _); [|destruct (negb _)]; intros G;
      try discriminate; now injection G as <-.
  - intros G. now injection G as <-.
Qed.

Lemma download_guard_400 (n q : field) :
  truthy n && truthy (Some (trimmed q)) = false ->
  decision (download_guard n q) = Some 400.
Proof.
  unfold download_guard. intros E. destruct n as [n|]; [|reflexivity].
  destruct (truthy (Some n)), (truthy (Some (trimmed q))); try reflexivity; discriminate.
Qed.

Lemma download_guard_checked (n : str) (q : field) :
  truthy (Some n) && truthy (Some (trimmed q)) = true ->
  download_guard (Some n) q =
    if startsWith n (lit "archivos/" ++ trimmed q ++ lit "/") then None
    else Some (fail 403 (lit "No autorizado para descargar este archivo")).
Proof.
  unfold download_guard. intros E. apply andb_true_iff in E as [En Eq].
  rewrite En, Eq. cbn [negb orb]. now destruct (startsWith n _).
Qed.

(** The download guard decides as the delete guard does on the trimmed
    uid. *)
Lemma download_as_delete_trimmed (i : str) (n q : str) :
  i <> [] ->
  decision (download_guard (Some n) (Some q)) =
  decision (delete_guard (Some i) (Some n) (Some (trim q))).
Proof.
  intros Hi. apply truthy_Some in Hi.
  destruct (truthy (Some n) && truthy (Some (trimmed (Some q)))) eqn:E.
  - rewrite download_guard_checked by exact E.
    rewrite trimmed_Some in *.
    rewrite delete_guard_checked by now rewrite Hi.
    cbn [tmpl]. now destruct (startsWith n _).
  - rewrite download_guard_400 by exact E.
    rewrite trimmed_Some in E.
    rewrite delete_guard_400; [reflexivity|]. now rewrite Hi.
Qed.

(** *** The handlers, case by case *)

Lemma delete_file_refused (i n u : field) (w : World S F) (x : Response) :
  delete_guard i n u = Some x -> delete_file i n u w = (x, w).
Proof. unfold delete_file, try_catch. now intros ->. Qed.

Lemma delete_file_passed (i n u : field) (w : World S F) :
  delete_guard i n u = None ->
  delete_file i n u w =
    match authorize (b2 w) with
    | (Throw e, s1) => (fail 500 e, mkWorld s1 (fs w) (log w ++ [Authorize]))
    | (Ok _, s1) =>
        let w2 s2 :=
          mkWorld s2 (fs w) ((log w ++ [Authorize]) ++ [DeleteFileVersion i n]) in
        match deleteFileVersion i n s1 with
        | (Ok d, s2) => (json (Deleted d), w2 s2)
        | (Throw e, s2) => (fail 500 e, w2 s2)
        end
    end.
Proof.
  unfold delete_file, try_catch, bind, await, ret. intros ->.
  destruct (authorize (b2 w)) as [[a|e] s1]; [|reflexivity]. simpl.
  now destruct (deleteFileVersion i n s1) as [[d|e] s2].
Qed.

Lemma get_download_refused (n q : field) (w : World S F) (x : Response) :
  download_guard n q = Some x -> get_download env n q w = (x, w).
Proof. unfold get_download. now intros ->. Qed.

Lemma get_download_passed (n q : field) (w : World S F) :
  download_guard n q = None ->
  get_download env n q w =
    match authorize (b2 w) with
    | (Throw e, s1) => (fail 500 e, mkWorld s1 (fs w) (log w ++ [Authorize]))
    | (Ok a, s1) =>
        let c := GetDownloadAuthorization (B2_BUCKET_ID env) n 3600 in
        let w2 s2 := mkWorld s2 (fs w) ((log w ++ [Authorize]) ++ [c]) in
        match getDownloadAuthorization (B2_BUCKET_ID env) n 3600 s1 with
        | (Ok d, s2) =>
            (json (SignedUrl (signedUrl (Authorize.downloadUrl a) (B2_BUCKET_NAME env) n
                                (DownloadAuth.authorizationToken d))), w2 s2)
        | (Throw e, s2) => (fail 500 e, w2 s2)
        end
    end.
Proof.
  unfold get_download, try_catch, bind, await, ret, validDurationInSeconds. intros ->.
  destruct (authorize (b2 w)) as [[a|e] s1]; [|reflexivity]. simpl.
  now destruct (getDownloadAuthorization _ n 3600 s1) as [[d|e] s2].
Qed.

Lemma get_files_run (q : field) (w : World S F) :
  get_files env q w =
    match authorize (b2 w) with
    | (Throw e, s1) => (fail 500 e, mkWorld s1 (fs w) (log w ++ [Authorize]))
    | (Ok _, s1) =>
        let c := ListFileNames (B2_BUCKET_ID env) (prefix q) 100 in
        let w2 s2 := mkWorld s2 (fs w) ((log w ++ [Authorize]) ++ [c]) in
        match listFileNames (B2_BUCKET_ID env) (prefix q) 100 s1 with
        | (Ok l, s2) => (json (FileList l), w2 s2)
        | (Throw e, s2) => (fail 500 e, w2 s2)
        end
    end.
Proof.
  unfold get_files, try_catch, bind, await, ret.
  destruct (authorize (b2 w)) as [[a|e] s1]; [|reflexivity]. simpl.
  now destruct (listFileNames _ (prefix q) 100 s1) as [[d|e] s2].
Qed.

Lemma post_upload_refused (file : option File) (u c : field) (w : World S F) :
  trimmed u = [] -> post_upload env file u c w = (fail 400 (lit "UID requerido"), w).
Proof. unfold post_upload, try_catch. now intros ->. Qed.

End Facts.

End GatewayFacts.

(** ** Claims about the file endpoints *)

Section FileClaims.

Import JSFacts GatewayFacts.

Context {S F : Type} `{B2 S} `{FS F}.
Variable env : Env.


(** C6: GET /files never answers 400 (it answers 200 or 500); the list
    request it sends uses the prefix [archivos/{uid}/] for a query uid that
    is not empty once trimmed and [archivos/] otherwise, asks for at most
    100 entries, and is sent whenever the authorization succeeds; with a
    store that honours [maxFileCount] the answer holds at most 100
    entries. *)
Theorem get_files_prefix_and_cap (q : field) (w w' : World S F) (r : Response) :
  (forall b p k s l s', listFileNames b p k s = (Ok l, s') -> 0 <= k ->
                        Z.of_nat (length l) <= k) ->
  get_files env q w = (r, w') ->
  let expected :=
    if truthy (Some (trimmed q)) then lit "archivos/" ++ trimmed q ++ lit "/"
    else lit "archivos/" in
  status r <> 400 /\ (status r = 200 \/ status r = 500)
  /\ (forall b p k, In (ListFileNames b p k) (issued w w') ->
      b = B2_BUCKET_ID env /\ p = expected /\ k = 100)
  /\ (forall a s1, authorize (b2 w) = (Ok a, s1) ->
      issued w w' = [Authorize; ListFileNames (B2_BUCKET_ID env) expected 100])
  /\ (forall l, body r = FileList l ->
      Z.of_nat (length l) <= 100
      /\ exists a s1 s2,
          authorize (b2 w) = (Ok a, s1)
          /\ listFileNames (B2_BUCKET_ID env) expected 100 s1 = (Ok l, s2)).
Proof.
  intros Cap E expected.
  assert (P : prefix q = expected).
  { unfold prefix, expected. now destruct (truthy _). }
  rewrite get_files_run, P in E.
  destruct (authorize (b2 w)) as [[a|e] s1].
  - destruct (listFileNames (B2_BUCKET_ID env) expected 100 s1) as [[l|e] s2] eqn:L;
      injection E as <- <-; rewrite issued_app2; simpl status; simpl body.
    + split; [discriminate|]. split; [now left|]. split; [|split].
      * intros b p k [A|[A|[]]]; [discriminate|]. now injection A as <- <- <-.
      * reflexivity.
      * intros l' El. injection El as <-.
        split; [apply (Cap _ _ _ _ _ _ L); lia|]. now exists a, s1, s2.
    + split; [discriminate|]. split; [now right|]. split; [|split].
      * intros b p k [A|[A|[]]]; [discriminate|]. now injection A as <- <- <-.
      * reflexivity.
      * discriminate.
  - injection E as <- <-. rewrite issued_app. simpl.
    split; [discriminate|]. split; [now right|]. split; [|split].
    + intros b p k [A|[]]. discriminate.
    + discriminate.
    + discriminate.
Qed.

(** C7: when GET /download passes validation and authorization, the only
    download authorization it requests is for the given [fileName] as
    prefix and 3600 seconds; when the store authorizes and grants it, the
    answer is the string
    [{downloadUrl}/file/{bucketName}/{fileName}?Authorization={token}] built
    from the store's two answers.  Any success is such a URL string: the
    answer never carries file contents. *)
Theorem get_download_signed_url (n : str) (q : field) (w w' : World S F) (r : Response) :
  download_guard (Some n) q = None ->
  get_download env (Some n) q w = (r, w') ->
  (forall b p k, In (GetDownloadAuthorization b p k) (issued w w') ->
      b = B2_BUCKET_ID env /\ p = Some n /\ k = 3600)
  /\ (forall a s1 d s2,
      authorize (b2 w) = (Ok a, s1) ->
      getDownloadAuthorization (B2_BUCKET_ID env) (Some n) 3600 s1 = (Ok d, s2) ->
      r = json (SignedUrl (Authorize.downloadUrl a ++ lit "/file/"
                             ++ tmpl (B2_BUCKET_NAME env) ++ lit "/" ++ n
                             ++ lit "?Authorization="
                             ++ DownloadAuth.authorizationToken d))
      /\ issued w w' =
           [Authorize; GetDownloadAuthorization (B2_BUCKET_ID env) (Some n) 3600])
  /\ (success r = true ->
      exists a s1 d s2,
        authorize (b2 w) = (Ok a, s1)
        /\ getDownloadAuthorization (B2_BUCKET_ID env) (Some n) 3600 s1 = (Ok d, s2)
        /\ body r = SignedUrl (Authorize.downloadUrl a ++ lit "/file/"
                                 ++ tmpl (B2_BUCKET_NAME env) ++ lit "/" ++ n
                                 ++ lit "?Authorization="
                                 ++ DownloadAuth.authorizationToken d))
  /\ (success r = false -> status r = 500).
Proof.
  intros G E. rewrite (get_download_passed _ _ _ _ G) in E.
  destruct (authorize (b2 w)) as [[a|e] s1].
  - destruct (getDownloadAuthorization (B2_BUCKET_ID env) (Some n) 3600 s1)
      as [[d|e] s2] eqn:D; injection E as <- <-; rewrite issued_app2;
      (split; [|split; [|split]]).
    + intros b p k [A|[A|[]]]; [discriminate|]. now injection A as <- <- <-.
    + intros a' s1' d' s2' A' D'. injection A' as <- <-. rewrite D in D'.
      injection D' as <- <-. now split.
    + intros _. now exists a, s1, d, s2.
    + discriminate.
    + intros b p k [A|[A|[]]]; [discriminate|]. now injection A as <- <- <-.
    + intros a' s1' d' s2' A' D'. injection A' as <- <-. rewrite D in D'.
      discriminate.
    + discriminate.
    + reflexivity.
  - injection E as <- <-. rewrite issued_app. split; [|split; [|split]].
    + intros b p k [A|[]]. discriminate.
    + discriminate.
    + discriminate.
    + reflexivity.
Qed.

(** C8: POST /upload with a [uid] that is absent or trims to the empty
    string answers 400 and performs no store operation: nothing is issued,
    and store, files and log are as before. *)
Theorem post_upload_requires_uid (file : option File) (u c : field)
    (w w' : World S F) (r : Response) :
  u = None \/ (exists s, u = Some s /\ trim s = []) ->
  post_upload env file u c w = (r, w') ->
  status r = 400 /\ success r = false /\ issued w w' = [] /\ w' = w.
Proof.
  intros A E. rewrite post_upload_refused in E.
  - injection E as <- <-. repeat split. apply issued_none.
  - destruct A as [ -> | (s & -> & T)]; [reflexivity|]. now rewrite trimmed_Some.
Qed.

(** C3: a successful POST /upload, with [uid] and [carpeta] standing for
    the trimmed fields, writes and returns the path
    [archivos/ + uid + / + (carpeta + / when carpeta is not empty) + f],
    where [f] is the original name of the uploaded file; every path written
    to the store has this form and begins with [archivos/{uid}/]. *)
Theorem post_upload_path (file : option File) (u c : field)
    (w w' : World S F) (r : Response) :
  post_upload env file u c w = (r, w') ->
  let uid := trimmed u in
  let carpeta := trimmed c in
  let target f :=
    lit "archivos/" ++ uid ++ lit "/"
      ++ (if truthy (Some carpeta) then carpeta ++ lit "/" else []) ++ f in
  (forall url tok p d, In (UploadFile url tok p d) (issued w w') ->
      uid <> []
      /\ (exists f, file = Some f /\ p = target (originalname f))
      /\ startsWith p (lit "archivos/" ++ uid ++ lit "/") = true)
  /\ (success r = true ->
      uid <> []
      /\ exists f i url tok d,
          file = Some f
          /\ r = json (Uploaded i (target (originalname f)))
          /\ In (UploadFile url tok (target (originalname f)) d) (issued w w')).
Proof.
  intros E uid carpeta target.
  destruct (truthy (Some uid)) eqn:T.
  2: { assert (U : trimmed u = []).
       { unfold uid in T. destruct (trimmed u); [reflexivity|discriminate]. }
       rewrite post_upload_refused in E by exact U. injection E as <- <-.
       rewrite issued_none. split; [intros ? ? ? ? []|discriminate]. }
  assert (N : uid <> []) by now apply truthy_Some.
  assert (P : forall f, refPath uid carpeta f = target f).
  { intros f. unfold refPath, target. destruct (truthy (Some carpeta));
      now rewrite <- ?app_assoc. }
  assert (Q : forall f, startsWith (target f) (lit "archivos/" ++ uid ++ lit "/") = true).
  { intros f.
    assert (target f = (lit "archivos/" ++ uid ++ lit "/")
                       ++ (if truthy (Some carpeta) then carpeta ++ lit "/" else []) ++ f)
      as -> by (unfold target; now rewrite <- !app_assoc).
    apply startsWith_app. }
  unfold post_upload, try_catch, bind, await, ret, read, unlink, throw in E.
  fold uid carpeta in E. rewrite T in E. cbn [negb] in E.
  destruct (authorize (b2 w)) as [[a|e] s1]; cbn [b2 fs log] in E.
  2: { injection E as <- <-. rewrite issued_app.
       split; [intros ? ? ? ? [A|[]]|]; discriminate. }
  destruct (getUploadUrl (B2_BUCKET_ID env) s1) as [[up|e] s2]; cbn [b2 fs log] in E.
  2: { injection E as <- <-. rewrite issued_app2.
       split; [intros ? ? ? ? [A|[A|[]]]|]; discriminate. }
  destruct file as [f|]; cbn [b2 fs log] in E.
  2: { injection E as <- <-. rewrite issued_app2.
       split; [intros ? ? ? ? [A|[A|[]]]|]; discriminate. }
  destruct (readFileSync (path f) (fs w)) as [data|e]; cbn [b2 fs log] in E.
  2: { injection E as <- <-. rewrite issued_app2.
       split; [intros ? ? ? ? [A|[A|[]]]|]; discriminate. }
  rewrite P in E.
  assert (I : forall url tok p d,
             In (UploadFile url tok p d)
                [Authorize; GetUploadUrl (B2_BUCKET_ID env);
                 UploadFile (UploadUrl.uploadUrl up) (UploadUrl.authorizationToken up)
                   (target (originalname f)) data] ->
             uid <> []
             /\ (exists f0, Some f = Some f0 /\ p = target (originalname f0))
             /\ startsWith p (lit "archivos/" ++ uid ++ lit "/") = true).
  { intros url tok p d [A|[A|[A|[]]]]; try discriminate.
    injection A as <- <- <- <-. split; [exact N|]. split; [now exists f|apply Q]. }
  destruct (uploadFile _ _ (target (originalname f)) data s2) as [[info|e] s3];
    cbn [b2 fs log] in E.
  2: { injection E as <- <-. rewrite issued_app3. split; [exact I|discriminate]. }
  destruct (unlinkSync (path f) (fs w)) as [[[]|e] f']; cbn [b2 fs log] in E;
    injection E as <- <-; rewrite issued_app3; (split; [exact I|]); [|discriminate].
  intros _. split; [exact N|].
  exists f, (fileId info), (UploadUrl.uploadUrl up), (UploadUrl.authorizationToken up), data.
  split; [reflexivity|]. split; [reflexivity|]. right. right. now left.
Qed.

End FileClaims.

(** ** The reminder poller, event by event *)

Module PollerFacts.

Import Poller.

Section Event.

Variable env : Env.
Variable Date_parse : str -> option Z.
Variable getUser : field -> Result UserRecord.

Lemma upcoming_iff (ahora : Z) (evento : Event) :
  upcoming Date_parse ahora evento = true <->
  exists t, eventDateTime Date_parse evento = Some t
            /\ ahora <= t <= ahora + 5 * 60 * 1000.
Proof.
unfold upcoming. destruct (eventDateTime Date_parse evento) as [t|]; split.
- intros E. exists t. split; [reflexivity|]. lia.
- intros (t' & E & B). injection E as <-. lia.
- discriminate.
- intros (t' & E & _). discriminate.
Qed.

(** The mails of one event: one reminder to the recipient, when the event
    is upcoming and has one. *)
Lemma notify_mails (ahora : Z) (evento : Event) :
  mails (notify env Date_parse getUser ahora evento) =
    if upcoming Date_parse ahora evento then
      match recipient getUser evento with
      | Some a => [reminder env evento (Some a)]
      | None => []
      end
    else [].
Proof.
unfold notify, recipient, send.
destruct (upcoming Date_parse ahora evento); [|reflexivity].
destruct (email evento) as [[|c r]|]; cbn [truthy negb andb];
  destruct (userId evento) as [[|c' r']|]; cbn [truthy];
  try match goal with
      | |- context [getUser ?u] => destruct (getUser u) as [[[[|c2 r2]|]]|e]
      end;
  reflexivity.
Qed.

(** The lookups of one event: one, for an upcoming event without a stored
    email and with a user id. *)
Lemma notify_lookups (ahora : Z) (evento : Event) :
  lookups (notify env Date_parse getUser ahora evento) =
    if upcoming Date_parse ahora evento && negb (truthy (email evento))
       && truthy (userId evento)
    then [userId evento] else [].
Proof.
unfold notify, send.
destruct (upcoming Date_parse ahora evento); [|reflexivity].
destruct (email evento) as [[|c r]|]; cbn [truthy negb andb];
  destruct (userId evento) as [[|c' r']|]; cbn [truthy];
  try match goal with
      | |- context [getUser ?u] => destruct (getUser u) as [[[[|c2 r2]|]]|e]
      end;
  reflexivity.
Qed.

Lemma notify_outside (ahora : Z) (evento : Event) :
  upcoming Date_parse ahora evento = false ->
  notify env Date_parse getUser ahora evento = [].
Proof. unfold notify. now intros ->. Qed.

End Event.

End PollerFacts.

(** ** Claims about the reminder poller *)

Section PollerClaims.

Import Poller.

Variable env : Env.
Variable Date_parse : str -> option Z.
Variable getUser : field -> Result UserRecord.

Local Abbreviation notify := (notify env Date_parse getUser).
Local Abbreviation upcoming := (upcoming Date_parse).
Local Abbreviation recipient := (recipient getUser).

(** C9: a tick at time [ahora] runs the callback once on every event of the
    collection, in order.  The event's instant is read from [start], [T],
    [time] (and zero seconds), and the event is upcoming exactly when
    [ahora <= instant <= ahora + 5 minutes].  For every event, a reminder is
    sent exactly when it is upcoming and a recipient resolves: the stored
    [email] when present, otherwise the email of [userId]; it is one mail,
    addressed to that recipient and sent from [EMAIL_USER].  The identity
    provider is asked once, and only for an upcoming event with no stored
    email and a [userId]; an event outside the window causes nothing, and an
    upcoming one with no address (or a failed lookup) gets no mail.  So the
    mails of the whole tick go, in order, to the recipients of the upcoming
    events that have one, and to nobody else. *)
Theorem reminder_in_window (ahora : Z) (docs : list Event) :
  let tick := checkUpcomingEvents env Date_parse getUser ahora (Ok docs) in
  let due e :=
    if upcoming ahora e
    then match recipient e with Some a => [a] | None => [] end
    else [] in
  let asked e :=
    if upcoming ahora e && negb (truthy (email e)) && truthy (userId e)
    then [userId e] else [] in
  (forall e,
      upcoming ahora e = true <->
      exists t, Date_parse (tmpl (start e) ++ lit "T" ++ tmpl (time e) ++ lit ":00") = Some t
                /\ ahora <= t <= ahora + 5 * 60 * 1000)
  /\ tick = map (notify ahora) docs
  /\ (forall e,
        map to (mails (notify ahora e)) = map Some (due e)
        /\ lookups (notify ahora e) = asked e
        /\ (forall m, In m (mails (notify ahora e)) ->
              from m = EMAIL_USER env /\ m = reminder env e (to m))
        /\ (upcoming ahora e = false -> notify ahora e = []))
  /\ (forall e, mails (notify ahora e) <> [] <->
                upcoming ahora e = true /\ recipient e <> None)
  /\ map to (flat_map mails tick) = map Some (flat_map due docs)
  /\ flat_map lookups tick = flat_map asked docs.
Proof.
intros tick due asked.
assert (M : forall e, map to (mails (notify ahora e)) = map Some (due e)).
{ intros e. rewrite PollerFacts.notify_mails. unfold due.
  destruct (upcoming ahora e); [|reflexivity]. now destruct (recipient e). }
assert (L : forall e, lookups (notify ahora e) = asked e).
{ intros e. apply PollerFacts.notify_lookups. }
split; [intros e; apply PollerFacts.upcoming_iff|].
split; [reflexivity|]. split; [|split; [|split]].
- intros e. split; [apply M|]. split; [apply L|]. split.
  + intros m. rewrite PollerFacts.notify_mails.
    destruct (upcoming ahora e); [|intros []].
    destruct (recipient e); [|intros []]. intros [<-|[]]. now split.
  + apply PollerFacts.notify_outside.
- intros e. rewrite PollerFacts.notify_mails.
  destruct (upcoming ahora e); [|split; [congruence|intros [A _]; discriminate]].
  destruct (recipient e); split; try congruence.
  + intros _. split; [reflexivity|discriminate].
  + intros [_ A]. congruence.
- subst tick. cbn [checkUpcomingEvents].
  induction docs as [|d ds IH]; [reflexivity|].
  cbn [map flat_map]. now rewrite !map_app, IH, M.
- subst tick. cbn [checkUpcomingEvents].
  induction docs as [|d ds IH]; [reflexivity|].
  cbn [map flat_map]. now rewrite IH, L.
Qed.

End PollerClaims.

(** ** The claims on concrete requests *)

Module MemFacts.

(** The stand-in bucket honours [maxFileCount]. *)
Lemma listFileNames_capped (b : field) (p : str) (k : Z) (s : Mem.bucket)
    (l : list FileInfo) (s' : Mem.bucket) :
  listFileNames b p k s = (Ok l, s') -> 0 <= k -> Z.of_nat (length l) <= k.
Proof.
  simpl. intros E K. injection E as <- _.
  pose proof (firstn_le_length (Z.to_nat k)
                (filter (fun o => startsWith (fileName o) p) (map fst s))).
  lia.
Qed.

End MemFacts.


(** C2: GET /download and DELETE /file are meant to authorize alike, and
    the delete guard misses the trim that its sibling routes apply to the
    uid.  On the file [archivos/u1/doc.pdf] and the uid [ u1] the download
    guard lets the request through and the handler answers with a signed
    URL, while the delete guard and handler answer 403; on the trimmed uid
    the delete guard passes too.  The trim is the whole difference: on every
    file name and uid the download guard decides as the delete guard decides
    on the trimmed uid. *)
Theorem delete_guard_misses_trim :
  let i := Some (lit "id:archivos/u1/doc.pdf") in
  let n := Some (lit "archivos/u1/doc.pdf") in
  let u := Some (lit " u1") in
  (decision (download_guard n u) = None /\ decision (delete_guard i n u) = Some 403)
  /\ (success (fst (get_download Mem.env n u Mem.world)) = true
      /\ status (fst (delete_file i n u Mem.world)) = 403)
  /\ decision (delete_guard i n (Some (trim (lit " u1")))) = None
  /\ (forall fid f q : str, fid <> [] ->
        decision (download_guard (Some f) (Some q)) =
        decision (delete_guard (Some fid) (Some f) (Some (trim q)))).
Proof.
intros i n u. split; [now split|]. split; [now split|]. split; [reflexivity|].
intros fid f q Hf. now apply GatewayFacts.download_as_delete_trimmed.
Qed.

Lemma post_upload_path_witness :
  exists i,
    fst (post_upload Mem.env (Some (mkFile (lit "uploads/3f2a") (lit "foto.png")))
           (Some (lit " u1 ")) (Some (lit "viajes ")) Mem.world) =
      json (Uploaded i (lit "archivos/u1/viajes/foto.png")).
Proof.
  destruct (post_upload_path Mem.env (Some (mkFile (lit "uploads/3f2a") (lit "foto.png")))
              (Some (lit " u1 ")) (Some (lit "viajes ")) Mem.world _ _
              (surjective_pairing _)) as [_ A].
  destruct A as (_ & f & i & url & tok & d & Ef & Er & _); [reflexivity|].
  injection Ef as <-. exists i. exact Er.
Defined.

Lemma get_files_prefix_and_cap_witness :
  issued Mem.world (snd (get_files Mem.env (Some (lit "u1 ")) Mem.world)) =
    [Authorize; ListFileNames (Some (lit "bucket-1")) (lit "archivos/u1/") 100]
  /\ issued Mem.world (snd (get_files Mem.env None Mem.world)) =
    [Authorize; ListFileNames (Some (lit "bucket-1")) (lit "archivos/") 100]
  /\ status (fst (get_files Mem.env None Mem.world)) <> 400.
Proof.
  destruct (get_files_prefix_and_cap Mem.env (Some (lit "u1 ")) Mem.world _ _
              MemFacts.listFileNames_capped (surjective_pairing _)) as (_ & _ & _ & A & _).
  destruct (get_files_prefix_and_cap Mem.env None Mem.world _ _
              MemFacts.listFileNames_capped (surjective_pairing _)) as (B & _ & _ & C & _).
  split; [exact (A _ _ eq_refl)|]. split; [exact (C _ _ eq_refl)|exact B].
Defined.

Lemma get_download_signed_url_witness :
  fst (get_download Mem.env (Some (lit "archivos/u1/doc.pdf")) (Some (lit "u1")) Mem.world) =
    json (SignedUrl (lit "https://f000.example.com/file/mi-bucket/archivos/u1/doc.pdf?Authorization=download-token")).
Proof.
  destruct (get_download_signed_url Mem.env (lit "archivos/u1/doc.pdf") (Some (lit "u1"))
              Mem.world _ _ eq_refl (surjective_pairing _)) as (_ & A & _).
  destruct (A (Authorize.mk (lit "https://f000.example.com")) (b2 Mem.world)
              (DownloadAuth.mk (lit "download-token")) (b2 Mem.world) eq_refl eq_refl)
    as [E _].
  exact E.
Defined.

Lemma post_upload_requires_uid_witness :
  let file := Some (mkFile (lit "uploads/3f2a") (lit "foto.png")) in
  status (fst (post_upload Mem.env file (Some (lit "  ")) None Mem.world)) = 400
  /\ snd (post_upload Mem.env file (Some (lit "  ")) None Mem.world) = Mem.world.
Proof.
  intros file.
  destruct (post_upload_requires_uid Mem.env file (Some (lit "  ")) None Mem.world _ _
              (or_intror (ex_intro _ (lit "  ") (conj eq_refl eq_refl)))
              (surjective_pairing _)) as (A & _ & _ & B).
  now split.
Defined.

(** The scenario of the specification, with a second event that is not due:
    the tick looks up the one user and sends one mail, to the address the
    lookup gave. *)
Lemma reminder_in_window_witness :
  let later :=
    Poller.mkEvent (Some (lit "Cierre")) (Some (lit "2025-03-02")) (Some (lit "09:00"))
                   (Some (lit "luis@example.com")) None in
  let tick :=
    Poller.checkUpcomingEvents Mem.env Mem.Date_parse Mem.getUser 1740823200000
      (Ok [later; Mem.junta]) in
  map Poller.to (flat_map Poller.mails tick) = [Some (lit "ana@example.com")]
  /\ flat_map Poller.lookups tick = [Some (lit "user-7")].
Proof.
intros later tick.
destruct (reminder_in_window Mem.env Mem.Date_parse Mem.getUser 1740823200000
            [later; Mem.junta]) as (_ & _ & _ & _ & A & B).
split; [exact A|exact B].
Defined.

(** * Further properties of the code *)

(** ** The folder registry over time *)

Module RegistryMore.

Import Registry JSFacts RegistryFacts.

Lemma handle_appends (q : request) (r : t) :
  exists added,
    folders (snd (handle q r)) = folders r ++ added
    /\ folderIdCounter (snd (handle q r)) = folderIdCounter r + Z.of_nat (length added)
    /\ (length added <= 1)%nat.
Proof.
destruct q as [n u|u]; simpl.
- destruct (truthy n && truthy u) eqn:E.
  + apply andb_true_iff in E as [En Eu].
    destruct n as [n|], u as [u|]; try discriminate.
    rewrite post_folder_created by (now apply truthy_Some).
    exists [mkFolder (folderIdCounter r) n u]. simpl. repeat split; lia.
  + rewrite post_folder_refused by exact E. exists []. simpl.
    rewrite app_nil_r. repeat split; lia.
- rewrite get_folders_state. exists []. simpl. rewrite app_nil_r. repeat split; lia.
Qed.

Lemma sorted_filter (p : Folder -> bool) (l : list Folder) :
  StronglySorted Z.lt (map id l) -> StronglySorted Z.lt (map id (filter p l)).
Proof.
induction l as [|f l IH]; simpl; [constructor|].
intros Hs. apply StronglySorted_inv in Hs as [Hl Hf].
destruct (p f); simpl; [|now apply IH].
constructor; [now apply IH|].
apply Forall_forall. intros z Hz.
apply in_map_iff in Hz as (g & <- & Hg). apply filter_In in Hg as [Hg _].
rewrite Forall_forall in Hf. apply Hf, in_map, Hg.
Qed.

Lemma run_appends (qs : list request) (r : t) :
  exists added,
    folders (run qs r) = folders r ++ added
    /\ folderIdCounter (run qs r) = folderIdCounter r + Z.of_nat (length added)
    /\ (length added <= length qs)%nat.
Proof.
revert r. induction qs as [|q qs IH]; intros r.
- exists []. simpl. rewrite app_nil_r. repeat split; lia.
- destruct (handle_appends q r) as (a1 & F1 & C1 & L1).
  destruct (IH (snd (handle q r))) as (a2 & F2 & C2 & L2).
  exists (a1 ++ a2). change (run (q :: qs) r) with (run qs (snd (handle q r))).
  rewrite F2, F1, C2, C1, <- app_assoc, length_app. simpl. repeat split; lia.
Qed.

Lemma listed_iff (q : str) (r : t) (f : Folder) :
  trim q <> [] ->
  In f (listed (fst (get_folders (Some q) r))) <-> In f (folders r) /\ uid f = trim q.
Proof.
intros Hq. rewrite get_folders_listed by now rewrite trimmed_Some.
rewrite trimmed_Some. unfold listed; simpl. now rewrite filter_In, eqb_eq.
Qed.

End RegistryMore.

(** X1: the registry is append-only.  Whatever requests arrive, the folders
    already there stay, unchanged and in place; new ones go behind them, at
    most one per request, and the counter advances by the number added. *)
Theorem registry_append_only (qs : list request) (r : Registry.t) :
  exists added,
    folders (run qs r) = folders r ++ added
    /\ folderIdCounter (run qs r) = folderIdCounter r + Z.of_nat (length added)
    /\ (length added <= length qs)%nat.
Proof.
destruct (RegistryMore.run_appends qs r) as (added & Hf & Hc & Hl).
exists added. now repeat split.
Qed.

(** X2: create, then list.  A folder created with a name and a uid that has
    no white space at its ends is listed for every query uid that trims to
    that uid, right away and after any further requests. *)
Theorem created_folder_stays_listed (n u q : str) (qs : list request) (r : Registry.t) :
  n <> [] -> u <> [] -> trim q = u ->
  In (mkFolder (folderIdCounter r) n u)
     (listed (fst (get_folders (Some q)
                     (run qs (snd (post_folder (Some n) (Some u) r)))))).
Proof.
intros Hn Hu Hq.
rewrite RegistryFacts.post_folder_created by assumption. cbn [snd].
apply RegistryMore.listed_iff; [congruence|].
split; [|now rewrite Hq].
destruct (RegistryMore.run_appends qs
            (Registry.mk (folders r ++ [mkFolder (folderIdCounter r) n u])
                         (folderIdCounter r + 1))) as (added & -> & _).
cbn [folders]. apply in_or_app. left. apply in_or_app. right. now left.
Qed.

Lemma created_folder_stays_listed_witness :
  In (mkFolder 1 (lit "Docs") (lit "u1"))
     (listed (fst (get_folders (Some (lit " u1 "))
        (run [PostFolder (Some (lit "Pics")) (Some (lit "u2")); GetFolders None]
             (snd (post_folder (Some (lit "Docs")) (Some (lit "u1")) fresh)))))).
Proof.
apply (created_folder_stays_listed (lit "Docs") (lit "u1") (lit " u1 ")
         [PostFolder (Some (lit "Pics")) (Some (lit "u2")); GetFolders None] fresh);
  [discriminate|discriminate|reflexivity].
Defined.

(** X3: in a registry reached from a fresh process, every listing comes in
    strictly increasing id order, so no folder is listed twice. *)
Theorem listing_ids_increasing (qs : list request) (q : field) :
  StronglySorted Z.lt (map id (listed (fst (get_folders q (run qs fresh))))).
Proof.
destruct (trimmed q) as [|c t] eqn:E.
- rewrite RegistryFacts.get_folders_refused by exact E. constructor.
- rewrite RegistryFacts.get_folders_listed by congruence. cbn [fst json listed body].
  apply RegistryMore.sorted_filter.
  destruct (RegistryFacts.counted_run qs fresh RegistryFacts.counted_fresh) as [-> _].
  apply RegistryFacts.seq_increasing.
Qed.

(** X4: the registry does not look at names: asking twice for the same name
    and uid creates two folders with consecutive ids, both kept. *)
Theorem same_folder_twice (n u : str) (r : Registry.t) :
  n <> [] -> u <> [] ->
  let r1 := snd (post_folder (Some n) (Some u) r) in
  let r2 := snd (post_folder (Some n) (Some u) r1) in
  folders r2 =
    folders r ++ [mkFolder (folderIdCounter r) n u; mkFolder (folderIdCounter r + 1) n u]
  /\ fst (post_folder (Some n) (Some u) r1) =
       json (FolderCreated (mkFolder (folderIdCounter r + 1) n u)).
Proof.
intros Hn Hu r1 r2. unfold r2, r1.
rewrite !RegistryFacts.post_folder_created by assumption. cbn [snd fst folders folderIdCounter].
now rewrite <- app_assoc.
Qed.

Lemma same_folder_twice_witness :
  folders (snd (post_folder (Some (lit "Docs")) (Some (lit "u1"))
                  (snd (post_folder (Some (lit "Docs")) (Some (lit "u1")) fresh)))) =
    [mkFolder 1 (lit "Docs") (lit "u1"); mkFolder 2 (lit "Docs") (lit "u1")].
Proof.
apply (same_folder_twice (lit "Docs") (lit "u1") fresh); discriminate.
Defined.

(** ** The file routes together *)

Module GatewayMore.

Import JSFacts GatewayFacts.

Lemma trim_idem (s : str) : trim (trim s) = trim s.
Proof. apply trim_fixed, trim_not_padded. Qed.

Lemma trimmed_trim (q : str) : trimmed (Some (trim q)) = trimmed (Some q).
Proof. rewrite !trimmed_Some. apply trim_idem. Qed.

Lemma refPath_app (u c f : str) :
  refPath u c f =
    (lit "archivos/" ++ u ++ lit "/") ++ (if truthy (Some c) then c ++ lit "/" else []) ++ f.
Proof. unfold refPath. destruct (truthy (Some c)); now rewrite <- ?app_assoc. Qed.

Lemma refPath_truthy (u c f : str) : truthy (Some (refPath u c f)) = true.
Proof. now rewrite refPath_app. Qed.

Lemma refPath_under_uid (u c f : str) :
  startsWith (refPath u c f) (lit "archivos/" ++ u ++ lit "/") = true.
Proof. rewrite refPath_app. apply startsWith_app. Qed.

Lemma refPath_under_root (u c f : str) :
  startsWith (refPath u c f) (lit "archivos/") = true.
Proof. rewrite refPath_app, <- app_assoc. apply startsWith_app. Qed.

(** Two strings without a slash that are followed by one coincide. *)
Lemma until_slash (a b x y : str) :
  ~ In 47%N a -> ~ In 47%N b -> a ++ 47%N :: x = b ++ 47%N :: y -> a = b.
Proof.
revert b; induction a as [|c a IH]; intros [|d b] Ha Hb E; simpl in *.
- reflexivity.
- injection E as E _. exfalso. apply Hb. now left.
- injection E as E _. exfalso. apply Ha. now left.
- injection E as -> E. f_equal. apply IH; [tauto|tauto|exact E].
Qed.

Lemma refPath_other_uid (a b c f : str) :
  ~ In 47%N a -> ~ In 47%N b -> a <> b ->
  startsWith (refPath a c f) (lit "archivos/" ++ b ++ lit "/") = false.
Proof.
intros Ha Hb N. destruct (startsWith _ _) eqn:E; [|reflexivity].
apply startsWith_inv in E as [t E]. rewrite refPath_app in E.
rewrite <- !app_assoc in E. apply app_inv_head in E.
apply until_slash in E; [contradiction|assumption|assumption].
Qed.

Lemma last_app_ne {A} (l c : list A) (d : A) : c <> [] -> last (l ++ c) d = last c d.
Proof.
intros Hc. induction l as [|x l IH]; [reflexivity|].
simpl. destruct (l ++ c) eqn:E; [|exact IH].
apply app_eq_nil in E as [_ E]. contradiction.
Qed.

Lemma last_default {A} (l : list A) (x d d' : A) : last (x :: l) d = last (x :: l) d'.
Proof. revert x; induction l as [|y l IH]; intros x; [reflexivity|apply (IH y)]. Qed.

Lemma padded_join (a c : str) :
  a <> [] -> c <> [] -> padded a = false -> padded c = false ->
  padded (a ++ lit "/" ++ c) = false.
Proof.
intros Ha Hc Pa Pc. destruct a as [|x a]; [contradiction|].
destruct c as [|y c]; [contradiction|].
unfold padded in *. apply orb_false_iff in Pa as [Pa _]. apply orb_false_iff in Pc as [_ Pc].
change ((x :: a) ++ lit "/" ++ y :: c) with (x :: (a ++ lit "/" ++ y :: c)).
cbv iota beta. rewrite Pa. cbn [orb].
replace (x :: a ++ lit "/" ++ y :: c) with ((x :: a ++ lit "/") ++ y :: c)
  by (simpl; now rewrite <- app_assoc).
rewrite last_app_ne by discriminate.
now rewrite (last_default c y x y).
Qed.

Section Upload.

Context {S F : Type} `{B2 S} `{FS F}.
Variable env : Env.

(** POST /upload once the uid is there, step by step. *)
Lemma post_upload_passed (file : option File) (u c : field) (w : World S F) :
  trimmed u <> [] ->
  post_upload env file u c w =
    match authorize (b2 w) with
    | (Throw e, s1) => (fail 500 e, mkWorld s1 (fs w) (log w ++ [Authorize]))
    | (Ok _, s1) =>
        let l2 := (log w ++ [Authorize]) ++ [GetUploadUrl (B2_BUCKET_ID env)] in
        match getUploadUrl (B2_BUCKET_ID env) s1 with
        | (Throw e, s2) => (fail 500 e, mkWorld s2 (fs w) l2)
        | (Ok up, s2) =>
            match file with
            | None =>
                (fail 500 (lit "Cannot read properties of undefined (reading 'path')"),
                 mkWorld s2 (fs w) l2)
            | Some f =>
                match readFileSync (path f) (fs w) with
                | Throw e => (fail 500 e, mkWorld s2 (fs w) l2)
                | Ok data =>
                    let p := refPath (trimmed u) (trimmed c) (originalname f) in
                    let url := UploadUrl.uploadUrl up in
                    let tok := UploadUrl.authorizationToken up in
                    let l3 := l2 ++ [UploadFile url tok p data] in
                    match uploadFile url tok p data s2 with
                    | (Throw e, s3) => (fail 500 e, mkWorld s3 (fs w) l3)
                    | (Ok info, s3) =>
                        match unlinkSync (path f) (fs w) with
                        | (Throw e, f') => (fail 500 e, mkWorld s3 f' l3)
                        | (Ok _, f') => (json (Uploaded (fileId info) p), mkWorld s3 f' l3)
                        end
                    end
                end
            end
        end
    end.
Proof.
intros U. apply truthy_Some in U.
unfold post_upload, try_catch, bind, await, ret, read, unlink, throw.
rewrite U. cbn [negb].
destruct (authorize (b2 w)) as [[a|e] s1]; cbn [b2 fs log]; [|reflexivity].
destruct (getUploadUrl (B2_BUCKET_ID env) s1) as [[up|e] s2]; cbn [b2 fs log];
  [|reflexivity].
destruct file as [f|]; cbn [b2 fs log]; [|reflexivity].
destruct (readFileSync (path f) (fs w)) as [data|e]; cbn [b2 fs log]; [|reflexivity].
destruct (uploadFile _ _ _ data s2) as [[info|e] s3]; cbn [b2 fs log]; [|reflexivity].
now destruct (unlinkSync (path f) (fs w)) as [[[]|e] f'].
Qed.

(** What a successful answer of POST /upload says about the request. *)
Lemma post_upload_uploaded (file : option File) (u c : field) (w w' : World S F)
    (i p : str) :
  post_upload env file u c w = (json (Uploaded i p), w') ->
  trimmed u <> []
  /\ exists f, file = Some f /\ p = refPath (trimmed u) (trimmed c) (originalname f).
Proof.
intros E. destruct (trimmed u) as [|x t] eqn:U.
{ rewrite post_upload_refused in E by exact U. discriminate. }
split; [discriminate|]. rewrite post_upload_passed in E by congruence.
rewrite U in E.
destruct (authorize (b2 w)) as [[a|e] s1]; [|discriminate].
destruct (getUploadUrl (B2_BUCKET_ID env) s1) as [[up|e] s2]; [|discriminate].
destruct file as [f|]; [|discriminate].
destruct (readFileSync (path f) (fs w)) as [data|e]; [|discriminate].
cbv zeta in E.
destruct (uploadFile _ _ _ data s2) as [[info|e] s3]; [|discriminate].
destruct (unlinkSync (path f) (fs w)) as [[[]|e] f']; [|discriminate].
injection E as _ E _. exists f. now split.
Qed.

End Upload.

End GatewayMore.

Section RouteProperties.

Import JSFacts GatewayFacts GatewayMore.

Context {S F : Type} `{B2 S} `{FS F}.
Variable env : Env.

(** X5: the routes that trim their uid do not see white space around it:
    GET /folders, GET /files, POST /upload and GET /download answer a uid
    exactly as they answer its trimmed form, in every state. *)
Theorem uid_padding_ignored (q : str) :
  (forall r, get_folders (Some q) r = get_folders (Some (trim q)) r)
  /\ (forall (w : World S F), get_files env (Some q) w = get_files env (Some (trim q)) w)
  /\ (forall file c (w : World S F),
        post_upload env file (Some q) c w = post_upload env file (Some (trim q)) c w)
  /\ (forall n (w : World S F),
        get_download env n (Some q) w = get_download env n (Some (trim q)) w).
Proof.
pose proof (trimmed_trim q) as E. repeat split; intros.
- unfold get_folders. now rewrite E.
- unfold get_files, prefix. now rewrite E.
- unfold post_upload. now rewrite E.
- unfold get_download, download_guard. now rewrite E.
Qed.

(** X6: what POST /upload stored, its owner may fetch and delete.  The
    [fileName] of a successful upload passes the download guard for every uid
    that trims as the uploader's did, passes the delete guard for the trimmed
    uid with any file id, and lies under the prefix GET /files lists for that
    uid and under the prefix it lists without one. *)
Theorem uploaded_file_is_owned (file : option File) (u c : field) (w w' : World S F)
    (i p q : str) :
  post_upload env file u c w = (json (Uploaded i p), w') ->
  trim q = trimmed u ->
  download_guard (Some p) (Some q) = None
  /\ (forall fid, fid <> [] -> delete_guard (Some fid) (Some p) (Some (trimmed u)) = None)
  /\ startsWith p (prefix u) = true
  /\ startsWith p (prefix None) = true.
Proof.
intros E Hq. apply post_upload_uploaded in E as (U & f & _ & ->).
pose proof (proj2 (truthy_Some _) U) as T.
split; [|split; [|split]].
- rewrite download_guard_checked.
  + now rewrite trimmed_Some, Hq, refPath_under_uid.
  + now rewrite refPath_truthy, trimmed_Some, Hq, T.
- intros fid Hf. pose proof (proj2 (truthy_Some _) Hf) as Tf.
  rewrite delete_guard_checked.
  + cbn [tmpl]. now rewrite refPath_under_uid.
  + apply andb_true_iff. split; [apply andb_true_iff; split|];
      [exact Tf|apply refPath_truthy|exact T].
- unfold prefix. rewrite T. apply refPath_under_uid.
- apply refPath_under_root.
Qed.


(** X7: another user is kept out.  When neither uid holds a slash, the
    [fileName] of a successful upload is refused with 403 by the download
    guard for every query uid that trims to a different uid, and by the
    delete guard for every different uid and every file id. *)
Theorem uploaded_file_is_private (file : option File) (u c : field) (w w' : World S F)
    (i p b : str) :
  post_upload env file u c w = (json (Uploaded i p), w') ->
  ~ In 47%N (trimmed u) -> ~ In 47%N b -> b <> [] -> b <> trimmed u ->
  (forall q, trim q = b -> decision (download_guard (Some p) (Some q)) = Some 403)
  /\ (forall fid, fid <> [] ->
        decision (delete_guard (Some fid) (Some p) (Some b)) = Some 403).
Proof.
intros E Hu Hb Nb D. apply post_upload_uploaded in E as (U & f & _ & ->).
pose proof (proj2 (truthy_Some _) Nb) as Tb.
assert (R : startsWith (refPath (trimmed u) (trimmed c) (originalname f))
                       (lit "archivos/" ++ b ++ lit "/") = false).
{ apply refPath_other_uid; [assumption|assumption|congruence]. }
split.
- intros q Hq. rewrite download_guard_checked.
  + now rewrite trimmed_Some, Hq, R.
  + rewrite trimmed_Some, Hq. apply andb_true_iff. split; [apply refPath_truthy|exact Tb].
- intros fid Hf. pose proof (proj2 (truthy_Some _) Hf) as Tf.
  rewrite delete_guard_checked.
  + cbn [tmpl]. now rewrite R.
  + apply andb_true_iff. split; [apply andb_true_iff; split|];
      [exact Tf|apply refPath_truthy|exact Tb].
Qed.

(** X8: the owner check is a prefix test and nothing more.  For a file
    uploaded by [uid] into the folder [carpeta], the uid made of [uid], a
    slash and [carpeta] passes both guards, with any file id. *)
Theorem nested_uid_is_admitted (file : option File) (u c : field) (w w' : World S F)
    (i p : str) :
  post_upload env file u c w = (json (Uploaded i p), w') ->
  trimmed c <> [] ->
  let intruder := trimmed u ++ lit "/" ++ trimmed c in
  intruder <> trimmed u
  /\ download_guard (Some p) (Some intruder) = None
  /\ (forall fid, fid <> [] -> delete_guard (Some fid) (Some p) (Some intruder) = None).
Proof.
intros E C intruder. apply post_upload_uploaded in E as (U & f & _ & ->).
assert (P : padded intruder = false).
{ apply padded_join; try assumption.
  - destruct u as [s|]; [|contradiction]. rewrite trimmed_Some. apply trim_not_padded.
  - destruct c as [s|]; [|contradiction]. rewrite trimmed_Some. apply trim_not_padded. }
assert (N : intruder <> []).
{ unfold intruder. destruct (trimmed u); [contradiction|discriminate]. }
pose proof (proj2 (truthy_Some _) N) as Ti.
assert (R : startsWith (refPath (trimmed u) (trimmed c) (originalname f))
                       (lit "archivos/" ++ intruder ++ lit "/") = true).
{ rewrite refPath_app. rewrite (proj2 (truthy_Some _) C). unfold intruder.
  replace ((lit "archivos/" ++ trimmed u ++ lit "/") ++ (trimmed c ++ lit "/")
             ++ originalname f)
    with ((lit "archivos/" ++ (trimmed u ++ lit "/" ++ trimmed c) ++ lit "/")
            ++ originalname f)
    by (now rewrite <- !app_assoc).
  apply startsWith_app. }
split; [|split].
- unfold intruder. intros A. rewrite <- (app_nil_r (trimmed u)) in A at 2.
  apply app_inv_head in A. discriminate.
- rewrite download_guard_checked.
  + now rewrite trimmed_Some, (trim_fixed _ P), R.
  + rewrite trimmed_Some, (trim_fixed _ P).
    apply andb_true_iff. split; [apply refPath_truthy|exact Ti].
- intros fid Hf. pose proof (proj2 (truthy_Some _) Hf) as Tf.
  rewrite delete_guard_checked.
  + cbn [tmpl]. now rewrite R.
  + apply andb_true_iff. split; [apply andb_true_iff; split|];
      [exact Tf|apply refPath_truthy|exact Ti].
Qed.

End RouteProperties.

(** ** The routes and the store *)

Module RouteFacts.

Import JSFacts GatewayFacts GatewayMore.

Lemma delete_guard_status (i n u : field) (x : Response) :
  delete_guard i n u = Some x -> status x = 400 \/ status x = 403.
Proof.
unfold delete_guard. destruct n as [n|].
- destruct (negb _ || _ || _); [|destruct (negb _)]; intros G;
    try discriminate; injection G as <-; auto.
- intros G. injection G as <-. auto.
Qed.

Lemma download_guard_status (n q : field) (x : Response) :
  download_guard n q = Some x ->
  (status x = 400 \/ status x = 403) /\ success x = false.
Proof.
unfold download_guard. destruct n as [n|].
- destruct (negb _ || _); [|destruct (negb _)]; intros G;
    try discriminate; injection G as <-; auto.
- intros G. injection G as <-. auto.
Qed.

(** Case analysis on every collaborator's answer an equation depends on. *)
Ltac answers E :=
  repeat match type of E with
         | context [match ?x with _ => _ end] =>
             lazymatch x with
             | context [match _ with _ => _ end] => fail
             | _ => let Q := fresh "Q" in destruct x eqn:Q
             end
         end.

Ltac calls :=
  rewrite ?issued_none, ?issued_app3, ?issued_app2, ?issued_app.

Section Run.

Context {S F : Type} `{B2 S} `{FS F}.
Variable env : Env.

(** Every route, as its guard and the answers of the collaborators make it
    run. *)
Lemma route_run (q : FileRequest) (w : World S F) :
  route env q w =
    match q with
    | PostUpload file u c =>
        if truthy (Some (trimmed u)) then post_upload env file u c w
        else (fail 400 (lit "UID requerido"), w)
    | GetFiles u => get_files env u w
    | DeleteFile i n u =>
        match delete_guard i n u with
        | Some x => (x, w)
        | None => delete_file i n u w
        end
    | GetDownload n u =>
        match download_guard n u with
        | Some x => (x, w)
        | None => get_download env n u w
        end
    end.
Proof.
destruct q as [file u c|u|i n u|n u]; cbn [route].
- destruct (truthy (Some (trimmed u))) eqn:T; [reflexivity|].
  apply post_upload_refused. destruct (trimmed u); [reflexivity|discriminate].
- reflexivity.
- destruct (delete_guard i n u) eqn:G; [|reflexivity]. now apply delete_file_refused.
- destruct (download_guard n u) eqn:G; [|reflexivity]. now apply get_download_refused.
Qed.

End Run.

End RouteFacts.

Section StoreProperties.

Import JSFacts GatewayFacts GatewayMore RouteFacts.

Context {S F : Type} `{B2 S} `{FS F}.
Variable env : Env.

(** X9: no store operation without a fresh authorization.  A route either
    refuses the request (400 or 403) and leaves the world as it was, or its
    first call to the store is [authorize], followed by at most two others,
    none of them a second [authorize]; when that authorization throws, the
    answer is 500 with its message and nothing else is asked of the store. *)
Theorem authorize_comes_first (q : FileRequest) (w w' : World S F) (r : Response) :
  route env q w = (r, w') ->
  ((issued w w' = [] /\ w' = w /\ (status r = 400 \/ status r = 403))
   \/ (exists rest, issued w w' = Authorize :: rest
                    /\ (length rest <= 2)%nat /\ ~ In Authorize rest))
  /\ (forall e s1, authorize (b2 w) = (Throw e, s1) -> issued w w' <> [] ->
        r = fail 500 e /\ issued w w' = [Authorize] /\ b2 w' = s1 /\ fs w' = fs w).
Proof.
intros E. rewrite route_run in E.
destruct q as [file u c|u|i n u|n u].
- destruct (truthy (Some (trimmed u))) eqn:T.
  + rewrite post_upload_passed in E by now apply truthy_Some.
    cbv zeta in E. answers E; injection E as <- <-; calls.
    all: split; [right; eexists; split; [reflexivity|]; simpl; split; [lia|];
                 intuition discriminate|].
    all: intros e' s1' A' _; try discriminate; injection A' as <- <-; now repeat split.
  + injection E as <- <-. calls. split; [left; auto|]. intros e s1 _ N. now contradict N.
- rewrite get_files_run in E. cbv zeta in E. answers E; injection E as <- <-; calls.
  all: split; [right; eexists; split; [reflexivity|]; simpl; split; [lia|];
               intuition discriminate|].
  all: intros e' s1' A' _; try discriminate; injection A' as <- <-; now repeat split.
- destruct (delete_guard i n u) as [x|] eqn:G.
  + injection E as <- <-. calls. split.
    * left. repeat split. now apply (delete_guard_status i n u).
    * intros e s1 _ N. now contradict N.
  + rewrite delete_file_passed in E by exact G. cbv zeta in E.
    answers E; injection E as <- <-; calls.
    all: split; [right; eexists; split; [reflexivity|]; simpl; split; [lia|];
                 intuition discriminate|].
    all: intros e' s1' A' _; try discriminate; injection A' as <- <-; now repeat split.
- destruct (download_guard n u) as [x|] eqn:G.
  + injection E as <- <-. calls. split.
    * left. repeat split. now apply (download_guard_status n u).
    * intros e s1 _ N. now contradict N.
  + rewrite get_download_passed in E by exact G. cbv zeta in E.
    answers E; injection E as <- <-; calls.
    all: split; [right; eexists; split; [reflexivity|]; simpl; split; [lia|];
                 intuition discriminate|].
    all: intros e' s1' A' _; try discriminate; injection A' as <- <-; now repeat split.
Qed.

(** X10: the answers of the routes.  An answer is a success exactly when its
    status is 200; POST /upload answers 200, 400 or 500, GET /files 200 or
    500, and the two owner-checked routes 200, 400, 403 or 500; a 400 or a 403
    leaves store, files and call log as they were, and only POST /upload
    ever touches the temporary files. *)
Theorem answers_by_route (q : FileRequest) (w w' : World S F) (r : Response) :
  route env q w = (r, w') ->
  (success r = true <-> status r = 200)
  /\ match q with
     | PostUpload _ _ _ => status r = 200 \/ status r = 400 \/ status r = 500
     | GetFiles _ => status r = 200 \/ status r = 500
     | _ => status r = 200 \/ status r = 400 \/ status r = 403 \/ status r = 500
     end
  /\ (status r = 400 \/ status r = 403 -> w' = w)
  /\ match q with
     | PostUpload _ _ _ => True
     | _ => fs w' = fs w
     end.
Proof.
intros E. rewrite route_run in E.
destruct q as [file u c|u|i n u|n u].
- destruct (truthy (Some (trimmed u))) eqn:T.
  + rewrite post_upload_passed in E by now apply truthy_Some.
    cbv zeta in E. answers E; injection E as <- <-; cbn.
    all: repeat split; auto; try discriminate; intros [A|A]; discriminate.
  + injection E as <- <-. cbn. repeat split; auto; discriminate.
- rewrite get_files_run in E. cbv zeta in E. answers E; injection E as <- <-; cbn.
  all: repeat split; auto; try discriminate; intros [A|A]; discriminate.
- destruct (delete_guard i n u) as [x|] eqn:G.
  + injection E as <- <-.
    pose proof (delete_guard_status _ _ _ _ G) as St.
    pose proof (delete_guard_fail _ _ _ _ G) as Fa.
    rewrite Fa. repeat split; auto; try discriminate.
    * intros A. destruct St as [St|St]; rewrite St in A; discriminate.
    * destruct St as [St|St]; rewrite St; auto.
  + rewrite delete_file_passed in E by exact G. cbv zeta in E.
    answers E; injection E as <- <-; cbn.
    all: repeat split; auto; try discriminate; intros [A|A]; discriminate.
- destruct (download_guard n u) as [x|] eqn:G.
  + injection E as <- <-.
    destruct (download_guard_status _ _ _ G) as [St Fa].
    rewrite Fa. repeat split; auto; try discriminate.
    * intros A. destruct St as [St|St]; rewrite St in A; discriminate.
    * destruct St as [St|St]; rewrite St; auto.
  + rewrite get_download_passed in E by exact G. cbv zeta in E.
    answers E; injection E as <- <-; cbn.
    all: repeat split; auto; try discriminate; intros [A|A]; discriminate.
Qed.

(** X11: each route keeps to its own store calls.  Besides [authorize], only
    POST /upload asks for an upload URL or uploads, only GET /files lists,
    only DELETE /file deletes (the very version it was asked for), and only
    GET /download asks for a download authorization (for the very file name,
    for 3600 seconds). *)
Theorem calls_by_route (q : FileRequest) (w w' : World S F) (r : Response) (c : Call) :
  route env q w = (r, w') ->
  In c (issued w w') ->
  match c, q with
  | Authorize, _ => True
  | GetUploadUrl b, PostUpload _ _ _ => b = B2_BUCKET_ID env
  | UploadFile _ _ _ _, PostUpload _ _ _ => True
  | ListFileNames b _ k, GetFiles _ => b = B2_BUCKET_ID env /\ k = 100
  | DeleteFileVersion i n, DeleteFile i' n' _ => i = i' /\ n = n'
  | GetDownloadAuthorization b n k, GetDownload n' _ =>
      b = B2_BUCKET_ID env /\ n = n' /\ k = 3600
  | _, _ => False
  end.
Proof.
intros E. rewrite route_run in E.
destruct q as [file u c0|u|i n u|n u].
- destruct (truthy (Some (trimmed u))) eqn:T.
  + rewrite post_upload_passed in E by now apply truthy_Some.
    cbv zeta in E. answers E; injection E as <- <-; calls; cbn [In].
    all: intuition (subst; auto).
  + injection E as <- <-. calls. intros [].
- rewrite get_files_run in E. cbv zeta in E. answers E; injection E as <- <-; calls;
    cbn [In].
  all: intuition (subst; auto).
- destruct (delete_guard i n u) as [x|] eqn:G.
  + injection E as <- <-. calls. intros [].
  + rewrite delete_file_passed in E by exact G. cbv zeta in E.
    answers E; injection E as <- <-; calls; cbn [In].
    all: intuition (subst; auto).
- destruct (download_guard n u) as [x|] eqn:G.
  + injection E as <- <-. calls. intros [].
  + rewrite get_download_passed in E by exact G. cbv zeta in E.
    answers E; injection E as <- <-; calls; cbn [In].
    all: intuition (subst; auto).
Qed.

(** X12: an upload without a file part.  With a uid but no file, POST /upload
    answers 500 and uploads nothing; yet when the store authorizes and hands
    out an upload URL, both calls have been made by the time the handler
    finds the file missing. *)
Theorem upload_without_file (u c : field) (w w' : World S F) (r : Response) :
  trimmed u <> [] ->
  post_upload env None u c w = (r, w') ->
  status r = 500
  /\ (forall url tok p d, ~ In (UploadFile url tok p d) (issued w w'))
  /\ fs w' = fs w
  /\ (forall a s1 up s2,
        authorize (b2 w) = (Ok a, s1) ->
        getUploadUrl (B2_BUCKET_ID env) s1 = (Ok up, s2) ->
        issued w w' = [Authorize; GetUploadUrl (B2_BUCKET_ID env)] /\ b2 w' = s2).
Proof.
intros U E. rewrite post_upload_passed in E by exact U. cbv zeta in E.
destruct (authorize (b2 w)) as [[a|e] s1].
- destruct (getUploadUrl (B2_BUCKET_ID env) s1) as [[up|e] s2] eqn:G;
    injection E as <- <-; calls; cbn [In];
    (split; [reflexivity|]); (split; [intros ? ? ? ? [A|[A|[]]]; discriminate|]);
    (split; [reflexivity|]); intros a' s1' up' s2' A B; injection A as <- <-;
    rewrite G in B; [injection B as _ <-; now split|discriminate].
- injection E as <- <-. calls. cbn [In].
  split; [reflexivity|]. split; [intros ? ? ? ? [A|[]]; discriminate|].
  split; [reflexivity|]. intros; discriminate.
Qed.

(** X13: stored first, tidied up after.  Once the store has taken the upload,
    the object is there whatever happens next: when removing the temporary
    file succeeds the answer is the store's file id with the path, and when
    it throws the answer is 500 with that message, the upload standing. *)
Theorem upload_then_cleanup (f : File) (u c : field) (w w' : World S F) (r : Response)
    a s1 up s2 data info s3 :
  trimmed u <> [] ->
  authorize (b2 w) = (Ok a, s1) ->
  getUploadUrl (B2_BUCKET_ID env) s1 = (Ok up, s2) ->
  readFileSync (path f) (fs w) = Ok data ->
  let p := refPath (trimmed u) (trimmed c) (originalname f) in
  let upload := UploadFile (UploadUrl.uploadUrl up) (UploadUrl.authorizationToken up) p data in
  uploadFile (UploadUrl.uploadUrl up) (UploadUrl.authorizationToken up) p data s2
    = (Ok info, s3) ->
  post_upload env (Some f) u c w = (r, w') ->
  b2 w' = s3
  /\ issued w w' = [Authorize; GetUploadUrl (B2_BUCKET_ID env); upload]
  /\ fs w' = snd (unlinkSync (path f) (fs w))
  /\ r = match fst (unlinkSync (path f) (fs w)) with
         | Ok _ => json (Uploaded (fileId info) p)
         | Throw e => fail 500 e
         end.
Proof.
intros U A G R p upload P E.
rewrite post_upload_passed in E by exact U. cbv zeta in E.
rewrite A, G, R in E. fold p in E. rewrite P in E.
destruct (unlinkSync (path f) (fs w)) as [[[]|e] f']; injection E as <- <-; calls;
  now repeat split.
Qed.

(** X14: what the store throws reaches the client unchanged.  After a
    successful authorization, the message of a failing second call (upload
    URL, listing, delete, download authorization) is the error of a 500
    answer, and the route stops there. *)
Theorem store_error_passed_on (q : FileRequest) (w w' : World S F) (r : Response)
    a s1 e s2 :
  route env q w = (r, w') ->
  authorize (b2 w) = (Ok a, s1) ->
  match q with
  | PostUpload _ u _ =>
      trimmed u <> [] /\ getUploadUrl (B2_BUCKET_ID env) s1 = (Throw e, s2)
  | GetFiles u => listFileNames (B2_BUCKET_ID env) (prefix u) 100 s1 = (Throw e, s2)
  | DeleteFile i n u =>
      delete_guard i n u = None /\ deleteFileVersion i n s1 = (Throw e, s2)
  | GetDownload n u =>
      download_guard n u = None
      /\ getDownloadAuthorization (B2_BUCKET_ID env) n 3600 s1 = (Throw e, s2)
  end ->
  r = fail 500 e /\ b2 w' = s2 /\ length (issued w w') = 2%nat.
Proof.
intros E A X. destruct q as [file u c|u|i n u|n u]; cbn [route] in E.
- destruct X as [U X]. rewrite post_upload_passed in E by exact U. cbv zeta in E.
  rewrite A, X in E. injection E as <- <-. calls. now repeat split.
- rewrite get_files_run in E. cbv zeta in E. rewrite A, X in E.
  injection E as <- <-. calls. now repeat split.
- destruct X as [G X]. rewrite delete_file_passed in E by exact G. cbv zeta in E.
  rewrite A, X in E. injection E as <- <-. calls. now repeat split.
- destruct X as [G X]. rewrite get_download_passed in E by exact G. cbv zeta in E.
  rewrite A, X in E. injection E as <- <-. calls. now repeat split.
Qed.

End StoreProperties.

(** ** The notification endpoint *)

Section NotificationProperties.

Import Notification.

Context {T : Type} `{Transport T}.
Variable env : Env.

(** X15: POST /send-notification answers 400 exactly when [to] or [subject]
    is absent or empty, or both [text] and [html] are; a 400 hands nothing to
    the mail transport, and the only other answers are 200 and 500. *)
Theorem notification_requires_fields (to subject text html : field)
    (w w' : Mailer T) (r : Response) :
  send_notification env to subject text html w = (r, w') ->
  (status r = 400 <->
     truthy to = false \/ truthy subject = false
     \/ (truthy text = false /\ truthy html = false))
  /\ (status r = 400 -> w' = w)
  /\ (status r = 200 \/ status r = 400 \/ status r = 500).
Proof.
unfold send_notification.
destruct (truthy to), (truthy subject), (truthy text), (truthy html); cbn [negb orb andb];
  try (intros E; injection E as <- <-; cbn; repeat split; auto; tauto).
all: destruct (sendMail _ (transport w)) as [[info|e] t']; intros E;
  injection E as <- <-; cbn; repeat split; auto; try discriminate;
  intros [A|[A|[A B]]]; discriminate.
Qed.

(** X16: a complete notification is handed to the transport once, as
    [{from: EMAIL_USER, to, subject, text, html}] with the fields as they
    came; the answer is the transport's: its info under 200 with the message
    [Correo enviado], or its error message under 500. *)
Theorem notification_sent_once (to subject text html : field)
    (w w' : Mailer T) (r : Response) :
  truthy to = true -> truthy subject = true -> truthy text || truthy html = true ->
  send_notification env to subject text html w = (r, w') ->
  let m := mkMessage (EMAIL_USER env) to subject text html in
  outbox w' = outbox w ++ [m]
  /\ transport w' = snd (sendMail m (transport w))
  /\ r = match fst (sendMail m (transport w)) with
         | Ok info => mkResponse 200 (Sent (lit "Correo enviado") info)
         | Throw e => mkResponse 500 (Failure e)
         end.
Proof.
intros Ht Hs Hb E m. unfold send_notification in E. rewrite Ht, Hs in E.
assert (B : negb (truthy text) && negb (truthy html) = false).
{ destruct (truthy text), (truthy html); try reflexivity; discriminate. }
rewrite B in E. cbn [negb orb] in E. fold m in E.
destruct (sendMail m (transport w)) as [[info|e] t']; injection E as <- <-;
  now repeat split.
Qed.

End NotificationProperties.

(** ** The poller from tick to tick *)

Section PollerProperties.

Import Poller.

Variable env : Env.
Variable Date_parse : str -> option Z.

(** X17: nothing remembers a reminder.  An event that is upcoming at one
    tick is upcoming again at every later tick that is not past the event.
    The later tick, whatever the identity provider answers by then
    ([getUser'] against [getUser] at the first tick), asks for the same
    lookups again and sends the reminder again whenever a recipient resolves
    at that tick: always, and the very same mail, for an event with a stored
    email; and the same actions altogether when the provider answers the
    event's [userId] as before. *)
Theorem reminded_again (getUser getUser' : field -> Result UserRecord)
    (ahora ahora' t : Z) (evento : Event) :
  eventDateTime Date_parse evento = Some t ->
  ahora <= ahora' -> ahora' <= t <= ahora + 5 * 60 * 1000 ->
  upcoming Date_parse ahora evento = true
  /\ upcoming Date_parse ahora' evento = true
  /\ lookups (notify env Date_parse getUser' ahora' evento) =
       lookups (notify env Date_parse getUser ahora evento)
  /\ (forall a, recipient getUser' evento = Some a ->
        exists m, mails (notify env Date_parse getUser' ahora' evento) = [m]
                  /\ to m = Some a /\ from m = EMAIL_USER env)
  /\ (recipient getUser' evento = None ->
        mails (notify env Date_parse getUser' ahora' evento) = [])
  /\ (truthy (email evento) = true ->
        mails (notify env Date_parse getUser' ahora' evento) =
          mails (notify env Date_parse getUser ahora evento)
        /\ exists m, mails (notify env Date_parse getUser ahora evento) = [m]
                     /\ to m = email evento)
  /\ (getUser' (userId evento) = getUser (userId evento) ->
        notify env Date_parse getUser' ahora' evento =
        notify env Date_parse getUser ahora evento).
Proof.
intros Et Ha Hw.
assert (U : forall n, ahora <= n <= ahora' -> upcoming Date_parse n evento = true).
{ intros n Hn. apply PollerFacts.upcoming_iff. exists t. split; [exact Et|lia]. }
pose proof (U ahora ltac:(lia)) as U1. pose proof (U ahora' ltac:(lia)) as U2.
split; [exact U1|]. split; [exact U2|].
rewrite !PollerFacts.notify_lookups, !PollerFacts.notify_mails, U1, U2.
split; [reflexivity|]. split; [|split; [|split]].
- intros a ->. eexists. split; [reflexivity|]. now split.
- now intros ->.
- intros T. unfold recipient.
  destruct (email evento) as [[|c r]|]; try discriminate.
  split; [reflexivity|]. eexists. split; reflexivity.
- intros G. unfold notify. now rewrite U1, U2, G.
Qed.

Variable getUser : field -> Result UserRecord.

Local Abbreviation notify := (notify env Date_parse getUser).

(** X18: what one tick can cause.  A tick runs the callback once per event
    of the collection; for every event the callback makes at most one lookup
    and sends at most one mail, to a non-empty address and from
    [EMAIL_USER], and does nothing when the event's date does not parse; so
    a tick over [n] events makes at most [n] lookups and sends at most [n]
    mails, and a tick whose collection cannot be read does nothing. *)
Theorem tick_bounds (ahora : Z) :
  (forall evento,
      (length (mails (notify ahora evento)) <= 1)%nat
      /\ (length (lookups (notify ahora evento)) <= 1)%nat
      /\ (forall m, In m (mails (notify ahora evento)) ->
            truthy (to m) = true /\ from m = EMAIL_USER env)
      /\ (eventDateTime Date_parse evento = None -> notify ahora evento = []))
  /\ (forall docs,
        let tick := checkUpcomingEvents env Date_parse getUser ahora (Ok docs) in
        tick = map (notify ahora) docs
        /\ length tick = length docs
        /\ (length (flat_map mails tick) <= length docs)%nat
        /\ (length (flat_map lookups tick) <= length docs)%nat)
  /\ (forall e, checkUpcomingEvents env Date_parse getUser ahora (Throw e) = []).
Proof.
assert (P : forall evento,
           (length (mails (notify ahora evento)) <= 1)%nat
           /\ (length (lookups (notify ahora evento)) <= 1)%nat
           /\ forall m, In m (mails (notify ahora evento)) ->
                        truthy (to m) = true /\ from m = EMAIL_USER env).
{ intros evento. rewrite PollerFacts.notify_mails, PollerFacts.notify_lookups.
  split; [|split].
  - destruct (upcoming Date_parse ahora evento); [|simpl; lia].
    destruct (recipient getUser evento); simpl; lia.
  - destruct (_ && _ && _); simpl; lia.
  - intros m. destruct (upcoming Date_parse ahora evento); [|intros []].
    unfold recipient.
    destruct (email evento) as [[|c r]|];
      destruct (userId evento) as [[|c' r']|];
      try match goal with
          | |- context [getUser ?u] => destruct (getUser u) as [[[[|c2 r2]|]]|e]
          end;
      intros Hm; repeat match goal with
                        | A : False |- _ => destruct A
                        | A : In _ _ |- _ => destruct A as [<-|A]
                        end; now split. }
split; [|split].
- intros evento. destruct (P evento) as (A & B & C). repeat split; try assumption.
  + now apply C.
  + now apply C.
  + intros E. apply PollerFacts.notify_outside. unfold upcoming. now rewrite E.
- intros docs tick. subst tick. cbn [checkUpcomingEvents].
  split; [reflexivity|]. split; [apply length_map|].
  split; induction docs as [|d ds IH]; try (simpl; lia);
    cbn [map flat_map length]; rewrite length_app; destruct (P d) as (A & B & _); lia.
- reflexivity.
Qed.

End PollerProperties.

(** ** The further properties on concrete requests *)

Lemma uploaded_file_is_owned_witness :
  download_guard (Some (lit "archivos/u1/viajes/foto.png")) (Some (lit "u1 ")) = None.
Proof.
refine (proj1 (uploaded_file_is_owned Mem.env
                 (Some (mkFile (lit "uploads/3f2a") (lit "foto.png")))
                 (Some (lit " u1 ")) (Some (lit "viajes ")) Mem.world _
                 (lit "id:archivos/u1/viajes/foto.png") (lit "archivos/u1/viajes/foto.png")
                 (lit "u1 ") eq_refl eq_refl)).
Defined.

Lemma uploaded_file_is_private_witness :
  decision (download_guard (Some (lit "archivos/u1/viajes/foto.png")) (Some (lit " u2")))
    = Some 403.
Proof.
refine (proj1 (uploaded_file_is_private Mem.env
                 (Some (mkFile (lit "uploads/3f2a") (lit "foto.png")))
                 (Some (lit " u1 ")) (Some (lit "viajes ")) Mem.world _
                 (lit "id:archivos/u1/viajes/foto.png") (lit "archivos/u1/viajes/foto.png")
                 (lit "u2") eq_refl _ _ _ _) (lit " u2") eq_refl).
- vm_compute. intuition discriminate.
- vm_compute. intuition discriminate.
- discriminate.
- discriminate.
Defined.

Lemma nested_uid_is_admitted_witness :
  download_guard (Some (lit "archivos/u1/viajes/foto.png")) (Some (lit "u1/viajes")) = None.
Proof.
refine (proj1 (proj2 (nested_uid_is_admitted Mem.env
                 (Some (mkFile (lit "uploads/3f2a") (lit "foto.png")))
                 (Some (lit " u1 ")) (Some (lit "viajes ")) Mem.world _
                 (lit "id:archivos/u1/viajes/foto.png") (lit "archivos/u1/viajes/foto.png")
                 eq_refl _))).
discriminate.
Defined.

Lemma authorize_comes_first_witness :
  issued Mem.world
    (snd (route Mem.env (DeleteFile (Some (lit "id:archivos/u1/doc.pdf"))
                           (Some (lit "archivos/u1/doc.pdf")) (Some (lit "u2"))) Mem.world))
    = []
  \/ exists rest,
       issued Mem.world
         (snd (route Mem.env (DeleteFile (Some (lit "id:archivos/u1/doc.pdf"))
                                (Some (lit "archivos/u1/doc.pdf")) (Some (lit "u2")))
                 Mem.world))
       = Authorize :: rest.
Proof.
destruct (authorize_comes_first Mem.env
            (DeleteFile (Some (lit "id:archivos/u1/doc.pdf"))
               (Some (lit "archivos/u1/doc.pdf")) (Some (lit "u2")))
            Mem.world _ _ (surjective_pairing _)) as [[(A & _)|(rest & A & _)] _].
- now left.
- right. now exists rest.
Defined.

Lemma answers_by_route_witness :
  snd (route Mem.env (GetDownload (Some (lit "archivos/u1/doc.pdf")) (Some (lit "u2")))
         Mem.world) = Mem.world.
Proof.
refine (proj1 (proj2 (proj2 (answers_by_route Mem.env
          (GetDownload (Some (lit "archivos/u1/doc.pdf")) (Some (lit "u2")))
          Mem.world _ _ (surjective_pairing _)))) _).
right. reflexivity.
Defined.

Lemma calls_by_route_witness :
  let q := DeleteFile (Some (lit "id:archivos/u1/doc.pdf"))
                      (Some (lit "archivos/u1/doc.pdf")) (Some (lit "u1")) in
  In (DeleteFileVersion (Some (lit "id:archivos/u1/doc.pdf")) (Some (lit "archivos/u1/doc.pdf")))
     (issued Mem.world (snd (route Mem.env q Mem.world)))
  /\ (Some (lit "id:archivos/u1/doc.pdf") = Some (lit "id:archivos/u1/doc.pdf")
      /\ Some (lit "archivos/u1/doc.pdf") = Some (lit "archivos/u1/doc.pdf")).
Proof.
intros q.
assert (A : In (DeleteFileVersion (Some (lit "id:archivos/u1/doc.pdf"))
                  (Some (lit "archivos/u1/doc.pdf")))
               (issued Mem.world (snd (route Mem.env q Mem.world))))
  by (right; left; reflexivity).
split; [exact A|].
exact (calls_by_route Mem.env q Mem.world _ _ _ (surjective_pairing _) A).
Defined.

Lemma upload_without_file_witness :
  status (fst (post_upload Mem.env None (Some (lit "u1")) None Mem.world)) = 500
  /\ issued Mem.world (snd (post_upload Mem.env None (Some (lit "u1")) None Mem.world)) =
       [Authorize; GetUploadUrl (Some (lit "bucket-1"))].
Proof.
destruct (upload_without_file Mem.env (Some (lit "u1")) None Mem.world _ _
            ltac:(discriminate) (surjective_pairing _)) as (A & _ & _ & B).
split; [exact A|].
exact (proj1 (B _ _ _ _ eq_refl eq_refl)).
Defined.

Lemma upload_then_cleanup_witness :
  let f := mkFile (lit "uploads/3f2a") (lit "foto.png") in
  fst (post_upload Mem.env (Some f) (Some (lit "u1")) None ReadOnly.world) =
    fail 500 (lit "EACCES: permission denied")
  /\ b2 (snd (post_upload Mem.env (Some f) (Some (lit "u1")) None ReadOnly.world)) =
       [(mkFileInfo (lit "id:archivos/u1/foto.png") (lit "archivos/u1/foto.png"),
         [Byte.x65])].
Proof.
intros f.
destruct (upload_then_cleanup Mem.env f (Some (lit "u1")) None ReadOnly.world _ _
            (Authorize.mk (lit "https://f000.example.com")) []
            (UploadUrl.mk (lit "https://pod.example.com/b2api") (lit "upload-token")) []
            [Byte.x65]
            (mkFileInfo (lit "id:archivos/u1/foto.png") (lit "archivos/u1/foto.png"))
            [(mkFileInfo (lit "id:archivos/u1/foto.png") (lit "archivos/u1/foto.png"),
              [Byte.x65])]
            ltac:(discriminate) eq_refl eq_refl eq_refl eq_refl (surjective_pairing _))
  as (A & _ & _ & B).
split; [exact B|exact A].
Defined.

Lemma store_error_passed_on_witness :
  fst (route Mem.env (DeleteFile (Some (lit "id:otro")) (Some (lit "archivos/u1/otro.pdf"))
                        (Some (lit "u1"))) Mem.world) =
    fail 500 (lit "file_not_present").
Proof.
refine (proj1 (store_error_passed_on Mem.env
          (DeleteFile (Some (lit "id:otro")) (Some (lit "archivos/u1/otro.pdf"))
             (Some (lit "u1")))
          Mem.world _ _ (Authorize.mk (lit "https://f000.example.com")) (b2 Mem.world)
          (lit "file_not_present") (b2 Mem.world)
          (surjective_pairing _) eq_refl (conj eq_refl eq_refl))).
Defined.

Lemma notification_requires_fields_witness :
  Notification.send_notification Mem.env (Some (lit "ana@example.com")) (Some (lit "Hola"))
    None (Some []) Postbox.empty =
    (Notification.mkResponse 400 (Notification.Failure (lit "Faltan datos para enviar el correo")),
     Postbox.empty).
Proof.
pose proof (notification_requires_fields Mem.env (Some (lit "ana@example.com"))
              (Some (lit "Hola")) None (Some []) Postbox.empty _ _
              (surjective_pairing _)) as (A & B & _).
assert (St : Notification.status
               (fst (Notification.send_notification Mem.env (Some (lit "ana@example.com"))
                       (Some (lit "Hola")) None (Some []) Postbox.empty)) = 400).
{ apply A. right. right. now split. }
rewrite (surjective_pairing (Notification.send_notification _ _ _ _ _ _)).
rewrite (B St). reflexivity.
Defined.

Lemma notification_sent_once_witness :
  Notification.outbox
    (snd (Notification.send_notification Mem.env (Some (lit "nadie@example.com"))
            (Some (lit "Hola")) (Some (lit "Buenos dias")) None Postbox.empty)) =
    [Notification.mkMessage (Some (lit "avisos@example.com")) (Some (lit "nadie@example.com"))
       (Some (lit "Hola")) (Some (lit "Buenos dias")) None]
  /\ fst (Notification.send_notification Mem.env (Some (lit "nadie@example.com"))
            (Some (lit "Hola")) (Some (lit "Buenos dias")) None Postbox.empty) =
     Notification.mkResponse 500 (Notification.Failure (lit "550 mailbox unavailable")).
Proof.
destruct (notification_sent_once Mem.env (Some (lit "nadie@example.com"))
            (Some (lit "Hola")) (Some (lit "Buenos dias")) None Postbox.empty _ _
            eq_refl eq_refl eq_refl (surjective_pairing _)) as (A & _ & B).
split; [exact A|exact B].
Defined.

(** The provider knows the user at the first tick and has lost it a minute
    later: the event is due at both, the second tick asks again and sends
    nothing; an event with a stored email would be mailed again. *)
Lemma reminded_again_witness :
  let gone := fun _ : field => @Throw Poller.UserRecord (lit "auth/user-not-found") in
  Poller.upcoming Mem.Date_parse (1740823200000 + 60000) Mem.junta = true
  /\ Poller.lookups (Poller.notify Mem.env Mem.Date_parse gone (1740823200000 + 60000)
                       Mem.junta) = [Some (lit "user-7")]
  /\ Poller.mails (Poller.notify Mem.env Mem.Date_parse gone (1740823200000 + 60000)
                     Mem.junta) = [].
Proof.
intros gone.
destruct (reminded_again Mem.env Mem.Date_parse Mem.getUser gone
            1740823200000 (1740823200000 + 60000) 1740823380000 Mem.junta
            eq_refl) as (_ & A & B & _ & C & _); [lia|lia|].
split; [exact A|]. split; [exact B|]. now apply C.
Defined.
